(** * The real-time chat and presence core of the mentor-matrix backend

    A shallow embedding of [src/socket/socket.js] (the socket layer) and of the
    [sendMessage] controller of the message controller, followed by the
    properties of the specification that concern them.

    The socket layer keeps five process-wide [Map]s and answers socket events.
    Every handler is a function from the state to an outcome: the new state
    and the list of transport calls it made, or a thrown exception.  Two
    handlers ([authenticate] and [sendMessage]) [await] the user store inside
    [getUserDetails]; such a handler is split at the [await] and the suspended
    half is kept in the state until the store answers, so that events of other
    connections can be served in between, as the event loop does. *)

From stdpp Require Import gmap strings list fin_maps pretty.
From Stdlib Require Import ZArith Lia.

Open Scope Z_scope.

(** ** JavaScript values carried by the payloads *)

Module JS.

(** The scalar JSON values a client can put in a payload field.  A field that
    is absent reads as [JUndefined]. *)
Inductive jsval :=
  | JUndefined
  | JNull
  | JBool (b : bool)
  | JNum (n : Z)
  | JStr (s : string).

#[global] Instance jsval_eq_dec : EqDecision jsval.
Proof. solve_decision. Defined.

Definition jsval_to_sum (v : jsval) : unit + unit + bool + Z + string :=
  match v with
  | JUndefined => inl (inl (inl (inl tt)))
  | JNull => inl (inl (inl (inr tt)))
  | JBool b => inl (inl (inr b))
  | JNum n => inl (inr n)
  | JStr s => inr s
  end.

Definition jsval_of_sum (x : unit + unit + bool + Z + string) : jsval :=
  match x with
  | inl (inl (inl (inl _))) => JUndefined
  | inl (inl (inl (inr _))) => JNull
  | inl (inl (inr b)) => JBool b
  | inl (inr n) => JNum n
  | inr s => JStr s
  end.

#[global] Instance jsval_countable : Countable jsval.
Proof.
  refine (inj_countable' jsval_to_sum jsval_of_sum _).
  by intros [].
Defined.

(** [!!v] of JavaScript: [undefined], [null], [false], [0] and the empty
    string are falsy. *)
Definition truthy (v : jsval) : bool :=
  match v with
  | JUndefined | JNull => false
  | JBool b => b
  | JNum n => negb (n =? 0)
  | JStr s => negb (String.eqb s "")
  end.

(** [a || b] *)
Definition js_or (a b : jsval) : jsval := if truthy a then a else b.

(** The length of a JavaScript string is a number of UTF-16 code units.  A
    string is held here as the bytes of its UTF-8 encoding: a character takes
    one code unit, and two when it lies beyond the basic plane, which is when
    its first byte is [0xF0] or more.  [utf16_tail] is the number of
    continuation bytes ([0x80] to [0xBF]) a first byte announces; [more]
    counts those still expected of the character under way, and a byte that
    continues nothing counts as a character of its own. *)
Definition utf16_lead (b : Z) : Z :=
  if (240 <=? b) && (b <? 248) then 2 else 1.

Definition utf16_tail (b : Z) : nat :=
  if b <? 192 then 0%nat
  else if b <? 224 then 1%nat
  else if b <? 240 then 2%nat
  else if b <? 248 then 3%nat
  else 0%nat.

Fixpoint utf16_units (more : nat) (s : string) : Z :=
  match s with
  | EmptyString => 0
  | String a s' =>
      let b := Z.of_N (Ascii.N_of_ascii a) in
      match more with
      | S more' =>
          if (128 <=? b) && (b <? 192) then utf16_units more' s'
          else utf16_lead b + utf16_units (utf16_tail b) s'
      | O => utf16_lead b + utf16_units (utf16_tail b) s'
      end
  end.

Definition utf16_length (s : string) : Z := utf16_units 0 s.

(** [v.length]: defined on strings only ([None] is [undefined]). *)
Definition js_length (v : jsval) : option Z :=
  match v with
  | JStr s => Some (utf16_length s)
  | _ => None
  end.

(** [x > n] and [x < n] where [x] may be [undefined]: comparing [undefined]
    with a number is false. *)
Definition js_gt (x : option Z) (n : Z) : bool :=
  match x with Some k => n <? k | None => false end.
Definition js_lt (x : option Z) (n : Z) : bool :=
  match x with Some k => k <? n | None => false end.

(** A value of a parsed request body ([express.json]): a scalar, an array
    or an object.  The controllers read of an array its length only and of
    an object its [length] property only, and hand the value on as it is; so
    an array stands here by the number of its items, and an object by what
    its [length] property gives where a number is wanted: a number, or
    nothing of use ([None]: there is no such property, or it converts to
    [NaN]), or no conversion at all ([ObjectUnconvertible]: the property is an
    object, or an array with such an item, whose [toString] is overridden by
    something that is no function). *)
Inductive body_value :=
  | Scalar (v : jsval)
  | ArrayOf (items : nat)
  | ObjectWith (length : option Z)
  | ObjectUnconvertible.

(** [!!v]: arrays and objects are truthy, the empty ones too. *)
Definition body_truthy (v : body_value) : bool :=
  match v with
  | Scalar v => truthy v
  | ArrayOf _ | ObjectWith _ | ObjectUnconvertible => true
  end.

(** [v.length], as the number a comparison makes of it. *)
Definition body_length (v : body_value) : option Z :=
  match v with
  | Scalar v => js_length v
  | ArrayOf items => Some (Z.of_nat items)
  | ObjectWith length => length
  | ObjectUnconvertible => None
  end.

(** Comparing [v.length] with a number throws a [TypeError]. *)
Definition length_unconvertible (v : body_value) : bool :=
  match v with
  | ObjectUnconvertible => true
  | _ => false
  end.

End JS.
Export JS.

(** ** Data of the socket layer *)

(** [{ count, timestamp }] of [messageRateLimits]. *)
Record rate_entry := RateEntry { count : Z; timestamp : Z }.

#[global] Instance rate_entry_eq_dec : EqDecision rate_entry.
Proof. solve_decision. Defined.

(** [{ _id, name, email, avatar }]: what [getUserDetails] stores and returns. *)
Record profile := Profile {
  p_id : jsval; p_name : jsval; p_email : jsval; p_avatar : jsval }.

#[global] Instance profile_eq_dec : EqDecision profile.
Proof. solve_decision. Defined.

(** The [sender] field of a [receiveMessage] payload: a full profile, or an
    object with [_id] and [name] only. *)
Inductive sender_obj :=
  | SenderProfile (p : profile)
  | SenderBrief (id name : jsval).

(** The payload of [receiveMessage].  The socket handler and the controller
    build different objects; a field an object does not have is [None]. *)
Record message_payload := MessagePayload {
  rm_id : option jsval;
  rm_chatId : jsval;
  rm_senderId : option jsval;
  rm_sender : sender_obj;
  rm_content : jsval;
  rm_createdAt : Z;
  rm_status : option string }.

(** Events the server emits. *)
Inductive server_event :=
  | UserOnline (id : jsval)
  | UserOffline (id : jsval)
  | TypingEv (chatId userName : jsval)
  | StopTypingEv (chatId userName : jsval)
  | ReceiveMessage (m : message_payload)
  | MessagesRead (chatId userId : jsval)
  | ErrorEv (message code : string).

(** Arguments handed to an acknowledgement callback. *)
Inductive ack_payload :=
  | AckSent                    (* { success: true, message: "Message sent" } *)
  | AckTime (serverTime : Z).  (* { serverTime } *)

(** What [Message.create] is asked to store. *)
Record message_doc_in := MessageIn {
  mi_chat : jsval; mi_sender : jsval; mi_content : body_value }.

(** The calls a handler makes on the transport and on the message store. *)
Inductive action :=
  | SocketEmit (sid : string) (e : server_event)           (* socket.emit *)
  | SocketBroadcast (sid : string) (e : server_event)      (* socket.broadcast.emit *)
  | SocketTo (sid : string) (room : jsval) (e : server_event)  (* socket.to(room).emit *)
  | IoTo (room : jsval) (e : server_event)                 (* io.to(room).emit *)
  | Ack (sid : string) (a : ack_payload)                   (* callback(...) *)
  | PersistMessage (m : message_doc_in).                   (* Message.create *)

(** A handler suspended at [await User.findById(userId)] inside
    [getUserDetails], with the variables its remaining half has captured. *)
Inductive suspended :=
  | AwaitAuthenticate (userId : jsval)
  | AwaitSendMessage (sid : string) (chatId content userId : jsval) (callback : bool).

Definition suspended_user (k : suspended) : jsval :=
  match k with
  | AwaitAuthenticate u => u
  | AwaitSendMessage _ _ _ u _ => u
  end.

(** What the user store answers to [findById]: a document, [null], or a
    rejection (a cast error on an id that is no ObjectId, a lost connection). *)
Inductive store_reply :=
  | Found (user : profile)
  | NotFound
  | Failed.

(** The module state: the five maps of [socket.js], then the runtime's part:
    the pending [setTimeout] callbacks (due time and the [userId] each one
    deletes), the handlers suspended on the store, and the rooms every
    connected socket is subscribed to in the transport. *)
Record state := State {
  onlineUsers : gmap jsval string;
  userRooms : gmap jsval (gset jsval);
  messageRateLimits : gmap jsval rate_entry;
  socketIdToUserId : gmap string jsval;
  userCache : gmap jsval profile;
  timers : list (Z * jsval);
  pending : gmap nat suspended;
  next_query : nat;
  adapter : gmap string (gset jsval) }.

Definition init : state :=
  State ∅ ∅ ∅ ∅ ∅ [] ∅ 0%nat ∅.

Definition set_onlineUsers (f : gmap jsval string → gmap jsval string) (st : state) : state :=
  State (f (onlineUsers st)) (userRooms st) (messageRateLimits st) (socketIdToUserId st)
        (userCache st) (timers st) (pending st) (next_query st) (adapter st).
Definition set_userRooms (f : gmap jsval (gset jsval) → gmap jsval (gset jsval)) (st : state) : state :=
  State (onlineUsers st) (f (userRooms st)) (messageRateLimits st) (socketIdToUserId st)
        (userCache st) (timers st) (pending st) (next_query st) (adapter st).
Definition set_messageRateLimits (f : gmap jsval rate_entry → gmap jsval rate_entry) (st : state) : state :=
  State (onlineUsers st) (userRooms st) (f (messageRateLimits st)) (socketIdToUserId st)
        (userCache st) (timers st) (pending st) (next_query st) (adapter st).
Definition set_socketIdToUserId (f : gmap string jsval → gmap string jsval) (st : state) : state :=
  State (onlineUsers st) (userRooms st) (messageRateLimits st) (f (socketIdToUserId st))
        (userCache st) (timers st) (pending st) (next_query st) (adapter st).
Definition set_userCache (f : gmap jsval profile → gmap jsval profile) (st : state) : state :=
  State (onlineUsers st) (userRooms st) (messageRateLimits st) (socketIdToUserId st)
        (f (userCache st)) (timers st) (pending st) (next_query st) (adapter st).
Definition set_timers (f : list (Z * jsval) → list (Z * jsval)) (st : state) : state :=
  State (onlineUsers st) (userRooms st) (messageRateLimits st) (socketIdToUserId st)
        (userCache st) (f (timers st)) (pending st) (next_query st) (adapter st).
Definition set_pending (f : gmap nat suspended → gmap nat suspended) (st : state) : state :=
  State (onlineUsers st) (userRooms st) (messageRateLimits st) (socketIdToUserId st)
        (userCache st) (timers st) (f (pending st)) (next_query st) (adapter st).
Definition set_next_query (f : nat → nat) (st : state) : state :=
  State (onlineUsers st) (userRooms st) (messageRateLimits st) (socketIdToUserId st)
        (userCache st) (timers st) (pending st) (f (next_query st)) (adapter st).
Definition set_adapter (f : gmap string (gset jsval) → gmap string (gset jsval)) (st : state) : state :=
  State (onlineUsers st) (userRooms st) (messageRateLimits st) (socketIdToUserId st)
        (userCache st) (timers st) (pending st) (next_query st) (f (adapter st)).

(** The outcome of a handler. *)
Inductive outcome :=
  | Ok (st : state) (out : list action)
  | Throw.

(** ** The helpers of [initializeSocket] *)

(** [addUserToRoom].  [userRooms.get(userId).add(chatId)] calls a method on the
    result of [get]: it is a [TypeError] when there is no entry ([None]). *)
Definition addUserToRoom (m : gmap jsval (gset jsval)) (userId chatId : jsval)
    : option (gmap jsval (gset jsval)) :=
  let m1 := if decide (is_Some (m !! userId)) then m else <[userId := ∅]> m in
  match m1 !! userId with
  | Some s => Some (<[userId := s ∪ {[chatId]}]> m1)
  | None => None
  end.

(** [removeUserFromRoom].  Both accesses are guarded by [?.]. *)
Definition removeUserFromRoom (m : gmap jsval (gset jsval)) (userId chatId : jsval)
    : gmap jsval (gset jsval) :=
  let m1 := match m !! userId with
            | Some s => <[userId := s ∖ {[chatId]}]> m
            | None => m
            end in
  match m1 !! userId with
  | Some s => if decide (size s = 0%nat) then delete userId m1 else m1
  | None => m1
  end.

(** [isRateLimited], at clock reading [now].  The entry read from the map is
    the object the map holds, so [userLimit.count += 1] changes the stored
    entry even on the path that returns [true] before the final [set]; only
    a default object made by [||] is lost on that path. *)
Definition isRateLimited (limits : gmap jsval rate_entry) (userId : jsval) (now : Z)
    : bool * gmap jsval rate_entry :=
  let stored := limits !! userId in
  let userLimit := default (RateEntry 0 now) stored in
  let currentTime := now in
  let timeDiff := currentTime - timestamp userLimit in
  if timeDiff <? 1000 then
    let userLimit' := RateEntry (count userLimit + 1) (timestamp userLimit) in
    if 5 <? count userLimit' then
      (true, match stored with
             | Some _ => <[userId := userLimit']> limits
             | None => limits
             end)
    else (false, <[userId := userLimit']> limits)
  else
    (false, <[userId := RateEntry 1 currentTime]> limits).

(** [sendError(socket, message, code)] *)
Definition sendError (sid : string) (message code : string) : list action :=
  [SocketEmit sid (ErrorEv message code)].

(** [5 * 60 * 1000] *)
Definition cache_ttl : Z := 5 * 60 * 1000.

(** [getUserDetails], up to its [await]: the cached profile, or [None] when
    the store has to be asked. *)
Definition getUserDetails_cached (st : state) (userId : jsval) : option profile :=
  userCache st !! userId.

(** [getUserDetails], from the store's answer on: a document is put in the
    cache and a timer that deletes the key is set; [null] and a rejection
    (caught and logged) both give [null] and touch nothing. *)
Definition getUserDetails_resume (now : Z) (userId : jsval) (r : store_reply) (st : state)
    : state * option profile :=
  match r with
  | Found user =>
      let entry := Profile (p_id user) (p_name user) (p_email user) (p_avatar user) in
      (set_timers (λ ts, ts ++ [(now + cache_ttl, userId)])
         (set_userCache (insert userId entry) st),
       Some entry)
  | NotFound => (st, None)
  | Failed => (st, None)
  end.

(** Registering a handler that waits for the store. *)
Definition suspend (k : suspended) (st : state) : state :=
  set_next_query S (set_pending (insert (next_query st) k) st).

(** [socketIdToUserId.get(socket.id) || socket.id] *)
Definition resolve (st : state) (sid : string) : jsval :=
  js_or (default JUndefined (socketIdToUserId st !! sid)) (JStr sid).

(** ** The handlers *)

(** [io.on("connection", ...)].  The transport has subscribed the new socket
    to the room named by its own id. *)
Definition on_connection (sid : string) (st : state) : outcome :=
  let st := set_adapter (insert sid {[JStr sid]}) st in
  Ok (set_onlineUsers (insert (JStr sid) sid) st)
     [SocketBroadcast sid (UserOnline (JStr sid))].

(** ["authenticate"]: the argument is destructured as [{ userId }], which
    throws when no object was sent ([None]). *)
Definition on_authenticate (sid : string) (payload : option jsval) (st : state) : outcome :=
  match payload with
  | None => Throw
  | Some userId =>
      if truthy userId then
        let st := set_socketIdToUserId (insert sid userId) st in
        let st := set_onlineUsers (insert userId sid) st in
        match getUserDetails_cached st userId with
        | Some _ => Ok st []
        | None => Ok (suspend (AwaitAuthenticate userId) st) []
        end
      else Ok st []
  end.

(** [socket.join(chatId)] and [socket.leave(chatId)] in the transport. *)
Definition socket_join (sid : string) (room : jsval) (st : state) : state :=
  set_adapter (alter (λ rs, rs ∪ {[room]}) sid) st.
Definition socket_leave (sid : string) (room : jsval) (st : state) : state :=
  set_adapter (alter (λ rs, rs ∖ {[room]}) sid) st.

(** ["joinChat"] *)
Definition on_joinChat (sid : string) (chatId : jsval) (st : state) : outcome :=
  let userId := resolve st sid in
  let st := socket_join sid chatId st in
  match addUserToRoom (userRooms st) userId chatId with
  | Some m => Ok (set_userRooms (λ _, m) st) []
  | None => Throw
  end.

(** ["leaveChat"] *)
Definition on_leaveChat (sid : string) (chatId : jsval) (st : state) : outcome :=
  let userId := resolve st sid in
  let st := socket_leave sid chatId st in
  Ok (set_userRooms (λ m, removeUserFromRoom m userId chatId) st) [].

(** ["typing"] and ["stopTyping"] *)
Definition on_typing (sid : string) (payload : option (jsval * jsval)) (st : state) : outcome :=
  match payload with
  | None => Throw
  | Some (chatId, userName) => Ok st [SocketTo sid chatId (TypingEv chatId userName)]
  end.
Definition on_stopTyping (sid : string) (payload : option (jsval * jsval)) (st : state) : outcome :=
  match payload with
  | None => Throw
  | Some (chatId, userName) => Ok st [SocketTo sid chatId (StopTypingEv chatId userName)]
  end.

(** The second half of ["sendMessage"], from the value of
    [await getUserDetails(userId)] on; [now] is the reading of [new Date()]. *)
Definition sendMessage_broadcast (now : Z) (sid : string) (chatId content userId : jsval)
    (callback : bool) (userDetails : option profile) : list action :=
  IoTo chatId (ReceiveMessage
    {| rm_id := None;
       rm_chatId := chatId;
       rm_senderId := Some userId;
       rm_sender := match userDetails with
                    | Some p => SenderProfile p
                    | None => SenderBrief userId (JStr "Unknown User")
                    end;
       rm_content := content;
       rm_createdAt := now;
       rm_status := None |})
  :: (if callback then [Ack sid AckSent] else []).

(** ["sendMessage"]: the argument is destructured as [{ chatId, content }]. *)
Definition on_sendMessage (now : Z) (sid : string) (payload : option (jsval * jsval))
    (callback : bool) (st : state) : outcome :=
  match payload with
  | None => Throw
  | Some (chatId, content) =>
      if negb (truthy chatId) || negb (truthy content) then
        Ok st (sendError sid "Chat ID and content are required." "MISSING_FIELDS")
      else
        let userId := resolve st sid in
        let '(limited, limits) := isRateLimited (messageRateLimits st) userId now in
        let st := set_messageRateLimits (λ _, limits) st in
        if limited then
          Ok st (sendError sid "Rate limit exceeded. Please slow down." "RATE_LIMIT")
        else
          match getUserDetails_cached st userId with
          | Some p =>
              Ok st (sendMessage_broadcast now sid chatId content userId callback (Some p))
          | None =>
              Ok (suspend (AwaitSendMessage sid chatId content userId callback) st) []
          end
  end.

(** ["markMessagesRead"]: the argument is destructured as [{ chatId }]. *)
Definition on_markMessagesRead (sid : string) (payload : option jsval) (st : state) : outcome :=
  match payload with
  | None => Throw
  | Some chatId =>
      let userId := resolve st sid in
      Ok st [IoTo chatId (MessagesRead chatId userId)]
  end.

(** ["pingServer"] *)
Definition on_pingServer (now : Z) (sid : string) (callback : bool) (st : state) : outcome :=
  Ok st (if callback then [Ack sid (AckTime now)] else []).

(** ["disconnect"].  The transport has removed the socket from every room
    before the handler runs, so the [socket.leave] calls of the handler's
    [forEach] find nothing to remove. *)
Definition on_disconnect (sid : string) (st : state) : outcome :=
  let st := set_adapter (delete sid) st in
  let userId := resolve st sid in
  let st := if truthy userId
            then set_socketIdToUserId (delete sid) (set_onlineUsers (delete userId) st)
            else st in
  let st := set_onlineUsers (delete (JStr sid)) st in
  let st := match userRooms st !! userId with
            | Some rs => foldr (socket_leave sid) st (elements rs)
            | None => st
            end in
  let st := set_userRooms (delete userId) st in
  Ok st [SocketBroadcast sid (UserOffline userId)].

(** The store answers query [q]: the suspended handler runs to its end. *)
Definition on_storeReply (now : Z) (q : nat) (r : store_reply) (st : state) : outcome :=
  match pending st !! q with
  | None => Ok st []
  | Some k =>
      let st := set_pending (delete q) st in
      let '(st, userDetails) := getUserDetails_resume now (suspended_user k) r st in
      match k with
      | AwaitAuthenticate _ => Ok st []
      | AwaitSendMessage sid chatId content userId callback =>
          Ok st (sendMessage_broadcast now sid chatId content userId callback userDetails)
      end
  end.

(** ** The event loop *)

(** What the loop can be handed: a socket event, or an answer of the store.
    [Logged] stands for ["reconnect_attempt"], ["reconnect"] and ["error"],
    whose handlers only write to the console. *)
Inductive event :=
  | Connection (sid : string)
  | Authenticate (sid : string) (payload : option jsval)
  | JoinChat (sid : string) (chatId : jsval)
  | LeaveChat (sid : string) (chatId : jsval)
  | Typing (sid : string) (payload : option (jsval * jsval))
  | StopTyping (sid : string) (payload : option (jsval * jsval))
  | SendMessage (sid : string) (payload : option (jsval * jsval)) (callback : bool)
  | MarkMessagesRead (sid : string) (payload : option jsval)
  | PingServer (sid : string) (callback : bool)
  | Logged (sid : string)
  | Disconnect (sid : string)
  | StoreReply (q : nat) (r : store_reply).

(** One handler run, at clock reading [now]. *)
Definition step (now : Z) (e : event) (st : state) : outcome :=
  match e with
  | Connection sid => on_connection sid st
  | Authenticate sid p => on_authenticate sid p st
  | JoinChat sid c => on_joinChat sid c st
  | LeaveChat sid c => on_leaveChat sid c st
  | Typing sid p => on_typing sid p st
  | StopTyping sid p => on_stopTyping sid p st
  | SendMessage sid p cb => on_sendMessage now sid p cb st
  | MarkMessagesRead sid p => on_markMessagesRead sid p st
  | PingServer sid cb => on_pingServer now sid cb st
  | Logged _ => Ok st []
  | Disconnect sid => on_disconnect sid st
  | StoreReply q r => on_storeReply now q r st
  end.

(** The timer callbacks [() => userCache.delete(userId)] that are due at
    [now] run, and leave the timer list. *)
Definition run_timers (now : Z) (st : state) : state :=
  let due := filter (λ t, t.1 ≤ now) (timers st) in
  let rest := filter (λ t, ¬ t.1 ≤ now) (timers st) in
  set_timers (λ _, rest) (set_userCache (λ c, foldr (λ t c, delete t.2 c) c due) st).

(** An event is handled after the timers that are due at its time. *)
Definition deliver (now : Z) (e : event) (st : state) : outcome :=
  step now e (run_timers now st).

(** A run of timed events; an exception ends it. *)
Fixpoint run (evs : list (Z * event)) (st : state) : outcome :=
  match evs with
  | [] => Ok st []
  | (now, e) :: evs' =>
      match deliver now e st with
      | Throw => Throw
      | Ok st1 out1 =>
          match run evs' st1 with
          | Throw => Throw
          | Ok st2 out2 => Ok st2 (out1 ++ out2)
          end
      end
  end.

(** The sockets an emission reaches, given the subscriptions held by the
    transport. *)
Definition room_members (ad : gmap string (gset jsval)) (room : jsval) : gset string :=
  dom (filter (λ kv, room ∈ kv.2) ad).

Definition recipients (ad : gmap string (gset jsval)) (a : action) : gset string :=
  match a with
  | SocketEmit sid _ => {[sid]} ∩ dom ad
  | SocketBroadcast sid _ => dom ad ∖ {[sid]}
  | SocketTo sid room _ => room_members ad room ∖ {[sid]}
  | IoTo room _ => room_members ad room
  | Ack sid _ => {[sid]} ∩ dom ad
  | PersistMessage _ => ∅
  end.

(** ** The [sendMessage] controller (HTTP) *)

(** The answer of a document store to a query the controller awaits. *)
Inductive answer (A : Type) :=
  | Doc (a : A)
  | NoDoc
  | Rejected.
Arguments Doc {A} a.
Arguments NoDoc {A}.
Arguments Rejected {A}.

(** The document [Message.create] returns. *)
Record message_doc := MessageDoc { m_id : jsval; m_content : jsval; m_createdAt : Z }.

(** How the controller ends: [next(new AppError(message, statusCode))], a
    rejected promise that [catchAsync] hands to [next], or a JSON response. *)
Inductive http_result :=
  | NextAppError (message : string) (statusCode : Z)
  | NextRejected
  | Json (statusCode : Z) (body : message_payload).

(** The object emitted and returned by the controller. *)
Definition sent_payload (chatId : jsval) (sender : profile) (message : message_doc)
    : message_payload :=
  {| rm_id := Some (m_id message);
     rm_chatId := chatId;
     rm_senderId := None;
     rm_sender := SenderBrief (p_id sender) (p_name sender);
     rm_content := m_content message;
     rm_createdAt := m_createdAt message;
     rm_status := Some "sent" |}.

(** [sendMessage] of the message controller.  [body] is [req.body.content]
    ([None] when there is no body to destructure), [chatId] is
    [req.params.chatId], [senderId] is [req.id]; [sender], [chat] and
    [created] are what [User.findById], [Chat.findById] and [Message.create]
    answer when asked; [io_ready] tells whether [initializeSocket] has run, for
    [getIO]. *)
Definition sendMessage (body : option body_value) (chatId senderId : jsval)
    (sender : answer profile) (chat : answer unit) (created : answer message_doc)
    (io_ready : bool) : http_result * list action :=
  match body with
  | None => (NextRejected, [])
  | Some content =>
      if negb (body_truthy content) || negb (truthy chatId) then
        (NextAppError "Content and chatId are required" 400, [])
      else if length_unconvertible content then (NextRejected, [])
      else if js_gt (body_length content) 500 then
        (NextAppError "Message content exceeds the maximum length of 500 characters" 400, [])
      else if js_lt (body_length content) 1 then
        (NextAppError "Message content must be at least 1 character long" 400, [])
      else
        match sender with
        | Rejected => (NextRejected, [])
        | _ =>
          match chat with
          | Rejected => (NextRejected, [])
          | _ =>
            match sender, chat with
            | Doc s, Doc _ =>
                let create := PersistMessage (MessageIn chatId senderId content) in
                match created with
                | Doc message =>
                    if io_ready then
                      (Json 201 (sent_payload chatId s message),
                       [create; IoTo chatId (ReceiveMessage (sent_payload chatId s message))])
                    else (NextRejected, [create])
                | _ => (NextRejected, [create])
                end
            | _, _ => (NextAppError "Sender or chat not found" 404, [])
            end
          end
        end
  end.

(** ** Vocabulary of the properties *)

(** Membership as [userRooms] records it. *)
Definition is_member (m : gmap jsval (gset jsval)) (userId chatId : jsval) : bool :=
  match m !! userId with
  | Some s => bool_decide (chatId ∈ s)
  | None => false
  end.

(** A join or a leave of one user in one room, and a sequence of them. *)
Inductive room_op := Join | Leave.

#[global] Instance room_op_eq_dec : EqDecision room_op.
Proof. solve_decision. Defined.

Definition room_op_apply (userId chatId : jsval) (op : room_op)
    (m : gmap jsval (gset jsval)) : option (gmap jsval (gset jsval)) :=
  match op with
  | Join => addUserToRoom m userId chatId
  | Leave => Some (removeUserFromRoom m userId chatId)
  end.

Fixpoint room_ops_apply (userId chatId : jsval) (ops : list room_op)
    (m : gmap jsval (gset jsval)) : option (gmap jsval (gset jsval)) :=
  match ops with
  | [] => Some m
  | op :: ops' =>
      match room_op_apply userId chatId op m with
      | Some m' => room_ops_apply userId chatId ops' m'
      | None => None
      end
  end.

(** The rate window of [userId] is over at [now], or none was ever opened. *)
Definition window_over (limits : gmap jsval rate_entry) (userId : jsval) (now : Z) : Prop :=
  match limits !! userId with
  | Some e => 1000 ≤ now - timestamp e
  | None => True
  end.







(** Connection [sid] acts as [u]: it is bound to the user [u], or it is bound
    to no user and [u] is its own id. *)
Definition acts_as (st : state) (sid : string) (u : jsval) : Prop :=
  (socketIdToUserId st !! sid = Some u ∧ truthy u = true) ∨
  (socketIdToUserId st !! sid = None ∧ u = JStr sid).




(** The object [sendError] emits when a field of ["sendMessage"] is missing. *)
Definition missing_fields_error (sid : string) : action :=
  SocketEmit sid (ErrorEv "Chat ID and content are required." "MISSING_FIELDS").

(** Such a state, reached from the start: [s1] and then [s2] authenticate as
    [u1], and [s2] joins [r1]. *)
Definition two_connections_one_user : state :=
  match run [(0, Connection "s1"); (1, Authenticate "s1" (Some (JStr "u1")));
             (2, Connection "s2"); (3, Authenticate "s2" (Some (JStr "u1")));
             (4, JoinChat "s2" (JStr "r1"))] init with
  | Ok st _ => st
  | Throw => init
  end.

(** Two users, each on a connection of their own and in a room of their own. *)
Definition two_users : state :=
  match run [(0, Connection "s1"); (1, Authenticate "s1" (Some (JStr "u1")));
             (2, JoinChat "s1" (JStr "r1"));
             (3, Connection "s2"); (4, Authenticate "s2" (Some (JStr "u2")));
             (5, JoinChat "s2" (JStr "r2"))] init with
  | Ok st _ => st
  | Throw => init
  end.






(** A state in which the profile of [u1], bound to [s1], is cached and [s1]
    has joined [r1]. *)
Definition ann : profile := Profile (JStr "u1") (JStr "Ann") (JStr "ann@example.org") JUndefined.

Definition cached_sender : state :=
  match run [(0, Connection "s1"); (1, Authenticate "s1" (Some (JStr "u1")));
             (2, StoreReply 0 (Found ann)); (3, JoinChat "s1" (JStr "r1"))] init with
  | Ok st _ => st
  | Throw => init
  end.

(** The profile a store answer yields. *)
Definition reply_profile (r : store_reply) : option profile :=
  match r with
  | Found user => Some user
  | NotFound | Failed => None
  end.

(** The eviction timers of [userId] that are pending. *)
Definition timers_of (userId : jsval) (st : state) : list (Z * jsval) :=
  filter (λ t, t.2 = userId) (timers st).

(** [userId] is cached as [user], its one pending eviction is due at [due],
    and no handler is waiting for the store about [userId]. *)
Definition cached_until (userId : jsval) (user : profile) (due : Z) (st : state) : Prop :=
  userCache st !! userId = Some user ∧
  timers_of userId st = [(due, userId)] ∧
  (∀ q k, pending st !! q = Some k → suspended_user k ≠ userId).

(** The time to live as the specification states it, for the answer to query
    [q] that comes at [t0] in state [st]: whenever [getUserDetails] is next called within
    [cache_ttl] of [t0], the profile is in the cache. *)
Definition served_for_ttl (st : state) (q : nat) (user : profile) (t0 : Z) : Prop :=
  ∀ k st1 out t,
    pending st !! q = Some k →
    deliver t0 (StoreReply q (Found user)) st = Ok st1 out →
    t0 ≤ t < t0 + cache_ttl →
    getUserDetails_cached (run_timers t st1) (suspended_user k) = Some user.

(** ["authenticate"] and then a message, both before the store has answered
    the first. *)
Definition overlapping_fetches : list (Z * event) :=
  [(0, Connection "s1");
   (0, Authenticate "s1" (Some (JStr "u1")));
   (1, SendMessage "s1" (Some (JStr "r1", JStr "hi")) false);
   (10, StoreReply 0 (Found ann))].

Definition after_overlapping_fetches : state :=
  match run overlapping_fetches init with
  | Ok st _ => st
  | Throw => init
  end.

(** The part of the state [getUserDetails] works on. *)
Definition cache_part (st : state) : gmap jsval profile * list (Z * jsval) * gmap nat suspended :=
  (userCache st, timers st, pending st).

(** Query numbers are handed out in order: the pending ones are below the
    next one. *)
Definition queries_fresh (st : state) : Prop :=
  ∀ q k, pending st !! q = Some k → (q < next_query st)%nat.

(** No user is kept with an empty room set. *)
Definition rooms_nonempty (st : state) : Prop :=
  ∀ u s, userRooms st !! u = Some s → s ≠ ∅.

(** The verdicts of [isRateLimited] on successive calls of one user, at the
    given clock readings. *)
Fixpoint rate_calls (userId : jsval) (times : list Z) (limits : gmap jsval rate_entry)
    : list bool :=
  match times with
  | [] => []
  | t :: ts =>
      let r := isRateLimited limits userId t in
      r.1 :: rate_calls userId ts r.2
  end.

(** How many of the calls were let through. *)
Definition accepted_count (verdicts : list bool) : nat :=
  length (filter (λ b, b = false) verdicts).

(** Every stored counter has counted at least one message. *)
Definition counts_positive (limits : gmap jsval rate_entry) : Prop :=
  ∀ u e, limits !! u = Some e → 1 ≤ count e.

(** Every cached profile has an eviction pending, and no eviction is due
    later than [cache_ttl] after [T]. *)
Definition evictions_pending (T : Z) (st : state) : Prop :=
  (∀ u, is_Some (userCache st !! u) → ∃ d, (d, u) ∈ timers st) ∧
  (∀ d u, (d, u) ∈ timers st → d ≤ T + cache_ttl).

(** ** The rest of the message controller, and what it is wrapped in *)

(** How a handler wrapped in [catchAsync] ends: with an [AppError] (thrown,
    or handed to [next]), with a promise rejected by something else, or
    with a JSON response. *)
Inductive reply (B : Type) :=
  | ReplyAppError (message : string) (statusCode : Z)
  | ReplyRejected
  | ReplyJson (statusCode : Z) (body : B).
Arguments ReplyAppError {B} message statusCode.
Arguments ReplyRejected {B}.
Arguments ReplyJson {B} statusCode body.

(** [n || d] for a number that may be missing: [undefined] and [NaN] (both
    [None]) and [0] are falsy.  [parseInt(s) || d] and [err.statusCode || d]
    are read this way. *)
Definition number_or (n : option Z) (d : Z) : Z :=
  match n with
  | Some n => if n =? 0 then d else n
  | None => d
  end.

(** [Math.ceil(a / b)] on integers, [b] not zero.  The quotient of the code
    is a double; for a count [a] from [0] to [2^53] and a page size [b] of
    [1] or more it is rounded to no integer it does not equal, so that its
    ceiling is the exact one. *)
Definition ceil_div (a b : Z) : Z := - ((- a) / b).

(** The numbers of the code are doubles.  An integer up to [2^53] in size is
    one; a larger one is rounded to the nearest integer that has 53
    significant bits, and to the even one of two that are equally near.
    The range of doubles ends below [2^1024], where [Infinity] takes over;
    the numbers here are finite, and a product that would pass that bound
    stands for an infinite one. *)
Definition to_double (n : Z) : Z :=
  let a := Z.abs n in
  if a <? 2 ^ 53 then n
  else
    let e := Z.log2 a - 52 in
    let q := a / 2 ^ e in
    let r := a mod 2 ^ e in
    let half := 2 ^ (e - 1) in
    let q' := if (r <? half) || ((r =? half) && Z.even q) then q else q + 1 in
    Z.sgn n * (q' * 2 ^ e).

(** The query [getMessages] builds: [find({ chat }).sort({ createdAt: 1 })
    .skip(skip).limit(limit)]. *)
Record find_query := FindQuery { fq_chat : jsval; fq_skip : Z; fq_limit : Z }.

(** The body [getMessages] answers with. *)
Record messages_body (M : Type) := MessagesBody {
  mb_results : Z;
  mb_totalMessages : Z;
  mb_totalPages : Z;
  mb_currentPage : Z;
  mb_messages : list M }.
Arguments MessagesBody {M}.
Arguments mb_results {M}.
Arguments mb_totalMessages {M}.
Arguments mb_totalPages {M}.
Arguments mb_currentPage {M}.
Arguments mb_messages {M}.

Definition getMessages_query (chatId : jsval) (page limit : option Z) : find_query :=
  let page := number_or page 1 in
  let limit := number_or limit 20 in
  let skip := to_double (to_double (page - 1) * limit) in
  FindQuery chatId skip limit.

(** [getMessages].  [page] and [limit] are what [parseInt] makes of the
    query parameters; [found] and [counted] are what [Message.find] and
    [Message.countDocuments] resolve to ([None] when they reject). *)
Definition getMessages {M : Type} (chatId : jsval) (page limit : option Z)
    (found : option (list M)) (counted : option Z) : reply (messages_body M) :=
  let page := number_or page 1 in
  let limit := number_or limit 20 in
  match found with
  | None => ReplyRejected
  | Some messages =>
      match counted with
      | None => ReplyRejected
      | Some totalMessages =>
          ReplyJson 200
            {| mb_results := Z.of_nat (length messages);
               mb_totalMessages := totalMessages;
               mb_totalPages := ceil_div totalMessages limit;
               mb_currentPage := page;
               mb_messages := messages |}
      end
  end.

(** What [markMessagesAsRead] does besides answering: the [updateMany] that
    sets [status] to ["read"] on the messages of the chat that are ["sent"]
    and not by the user, and transport calls. *)
Inductive read_call :=
  | UpdateToRead (chat : jsval) (notSender : jsval)
  | Transport (a : action).

(** [markMessagesAsRead].  [user] is [req.user.id] ([None] when there is no
    [req.user] to destructure), [updated] the [modifiedCount] of the update
    ([None] when it rejects). *)
Definition markMessagesAsRead (chatId : jsval) (user : option jsval) (updated : option Z)
    (io_ready : bool) : reply string * list read_call :=
  match user with
  | None => (ReplyRejected, [])
  | Some userId =>
      let update := UpdateToRead chatId userId in
      match updated with
      | None => (ReplyRejected, [update])
      | Some modifiedCount =>
          if io_ready then
            (ReplyJson 200 (pretty modifiedCount +:+ " messages marked as read"),
             [update; Transport (IoTo chatId (MessagesRead chatId userId))])
          else (ReplyRejected, [update])
      end
  end.

(** ** Authentication in front of the controllers *)

(** What [jwt.verify] gives: the decoded claims, or an exception with a
    name. *)
Inductive verified :=
  | Decoded (userId : jsval) (exp iat : option Z)
  | VerifyThrows (name : string).

(** The fields of the user document the middleware reads;
    [au_passwordChangedAt] is [getTime()] of the date when there is one. *)
Record auth_user := AuthUser {
  au_id : jsval;
  au_passwordChangedAt : option Z;
  au_status : jsval }.

(** How [isAuthenticated] ends: [next()] with [req.user] and [req.id] set, an
    [AppError], or another error passed on. *)
Inductive auth_result :=
  | Granted (user : auth_user) (id : jsval)
  | Refused (message : string) (statusCode : Z)
  | AuthRejected.

(** A numeric claim that is absent or [0] is falsy. *)
Definition claim_set (c : option Z) : bool :=
  match c with
  | Some n => negb (n =? 0)
  | None => false
  end.

(** [isAuthenticated], at clock reading [now] (milliseconds).  [token] is
    [req.cookies?.token]; [verify] is what [jwt.verify] does with it; [user]
    is what [User.findById(decoded.userId)] answers.  An [AppError] thrown
    inside the [try] is caught and thrown again unchanged, its name being
    ["Error"]. *)
Definition isAuthenticated (now : Z) (token : jsval) (verify : verified)
    (user : answer auth_user) : auth_result :=
  if negb (truthy token) then
    Refused "Authentication required. Please login to continue." 401
  else
    match verify with
    | VerifyThrows name =>
        if String.eqb name "JsonWebTokenError" then
          Refused "Invalid authentication token. Please login again." 401
        else if String.eqb name "TokenExpiredError" then
          Refused "Your session has expired. Please login again." 401
        else AuthRejected
    | Decoded userId exp iat =>
        let currentTime := now / 1000 in
        if claim_set exp && (default 0 exp <? currentTime) then
          Refused "Your session has expired. Please login again." 401
        else
          match user with
          | Rejected => AuthRejected
          | NoDoc => Refused "User associated with this token no longer exists." 401
          | Doc u =>
              if match au_passwordChangedAt u with
                 | Some changed => claim_set iat && (default 0 iat <? Z.quot changed 1000)
                 | None => false
                 end
              then Refused "Password was recently changed. Please login again." 401
              else if bool_decide (au_status u = JStr "inactive") then
                Refused "This account has been deactivated." 401
              else Granted u (au_id u)
          end
    end.

(** ** The application's error handler *)

(** A thrown value, with the fields of an [AppError]; one that is no
    [AppError] has them undefined ([None], [false]). *)
Record thrown := Thrown {
  th_message : string;
  th_statusCode : option Z;
  th_status : option string;
  th_isOperational : bool;
  th_errorCode : option string;
  th_stack : string }.

(** [new AppError(message, statusCode, errorCode = null)], with the stack the
    runtime captures. *)
Definition AppError (message : string) (statusCode : Z) (errorCode : option string)
    (stack : string) : thrown :=
  {| th_message := message;
     th_statusCode := Some statusCode;
     th_status := Some (if String.prefix "4" (pretty statusCode) then "fail" else "error");
     th_isOperational := true;
     th_errorCode := errorCode;
     th_stack := stack |}.

(** The body of an error response; [stack] is there in development only. *)
Record error_body := ErrorBody {
  eb_status : string;
  eb_message : string;
  eb_stack : option string }.

(** The last [app.use((err, req, res, next) => ...)] of the application:
    [None] when the response has begun and the error is passed on. *)
Definition global_error_handler (development headersSent : bool) (err : thrown)
    : option (Z * error_body) :=
  if headersSent then None
  else
    let statusCode := number_or (th_statusCode err) 500 in
    let message := if String.eqb (th_message err) "" then "Internal Server Error"
                   else th_message err in
    Some (statusCode,
          ErrorBody "error" message (if development then Some (th_stack err) else None)).

(** ** [createGroup] of the chat controller *)

(** A project as [createGroup] reads it, populated and lean: the title and
    the ids (as strings) of the creator, of the mentor and of the team.  A
    reference that is null or that [populate] could not resolve is [None]. *)
Record project_doc := ProjectDoc {
  pd_title : string;
  pd_createdBy : option string;
  pd_assignedMentor : option string;
  pd_teamMembers : list string }.

(** [x?._id.toString()]: [undefined] for a reference that is null. *)
Definition id_string (ref : option string) : jsval :=
  match ref with Some id => JStr id | None => JUndefined end.

(** The two kinds of collection in the participants expression.  The items
    of a [Set] are kept in the order of their first insertion. *)
Inductive collection :=
  | JsArray (items : list jsval)
  | JsSet (items : list jsval).

Fixpoint insertion_order (seen items : list jsval) : list jsval :=
  match items with
  | [] => []
  | x :: items =>
      if decide (x ∈ seen) then insertion_order seen items
      else x :: insertion_order (x :: seen) items
  end.

(** [new Set(items)] *)
Definition new_Set (items : list jsval) : collection :=
  JsSet (insertion_order [] items).

(** [o.filter(Boolean)]: an array has the method; a [Set] has none, so the
    call is a call of [undefined] and throws a [TypeError] ([None]). *)
Definition call_filter_Boolean (o : collection) : option collection :=
  match o with
  | JsArray items => Some (JsArray (filter (λ x, truthy x = true) items))
  | JsSet _ => None
  end.

(** [Array.from(o)] *)
Definition Array_from (o : collection) : list jsval :=
  match o with JsArray items | JsSet items => items end.

(** What [createGroup] asks of the chat store and of the transport. *)
Inductive group_call :=
  | CreateChat (name : string) (project : jsval) (participants : list jsval)
  | EmitJoinedChat (participant : jsval) (projectId : jsval).

(** How [createGroup] ends: it returns a chat ([None] for the [null] of a
    lookup that found nothing), it throws an [AppError] (logged and thrown
    again by its [catch]), or it throws something else. *)
Inductive group_result (C : Type) :=
  | GroupReturns (chat : option C)
  | GroupAppError (message : string) (statusCode : Z)
  | GroupThrows.
Arguments GroupReturns {C} chat.
Arguments GroupAppError {C} message statusCode.
Arguments GroupThrows {C}.

(** [createGroup(projectId)].  [valid] is [mongoose.isValidObjectId(projectId)];
    [project], [existing], [created] and [populated] are what
    [Project.findById], [Chat.findOne({ project })], [Chat.create] and the
    final [Chat.findById] answer, each consulted only where the source
    reaches the call; [io_ready] tells whether [getIO()] returns (a failure
    of the notifications is caught and logged). *)
Definition createGroup {C : Type} (projectId : jsval) (valid : bool)
    (project : answer project_doc) (existing : answer C)
    (created : option C) (io_ready : bool) (populated : answer C)
    : group_result C * list group_call :=
  if negb valid then (GroupAppError "Invalid project ID" 400, [])
  else
    match project with
    | Rejected => (GroupThrows, [])
    | NoDoc => (GroupAppError "Project not found" 404, [])
    | Doc project =>
        match existing with
        | Rejected => (GroupThrows, [])
        | Doc existingChat => (GroupReturns (Some existingChat), [])
        | NoDoc =>
            match call_filter_Boolean
                    (new_Set (id_string (pd_createdBy project)
                              :: id_string (pd_assignedMentor project)
                              :: map JStr (pd_teamMembers project))) with
            | None => (GroupThrows, [])
            | Some filtered =>
                let participants := Array_from filtered in
                let create :=
                  CreateChat (pd_title project +:+ " - Group Chat") projectId participants in
                match created with
                | None => (GroupThrows, [create])
                | Some groupChat =>
                    let notified :=
                      if io_ready
                      then map (λ p, EmitJoinedChat p projectId) participants
                      else [] in
                    match populated with
                    | Rejected => (GroupThrows, create :: notified)
                    | NoDoc => (GroupReturns None, create :: notified)
                    | Doc populatedGroupChat =>
                        (GroupReturns (Some populatedGroupChat), create :: notified)
                    end
                end
            end
        end
    end.

(** The end of the accept branch of [mentorDecision]: the project is saved
    and the mails are sent, then [createGroup] is tried, whatever it throws
    is caught and logged, and the answer is a 200 whose message tells whether
    there is a chat. *)
Definition mentorDecision_accept_message {C : Type} (r : group_result C) : string :=
  match r with
  | GroupReturns (Some _) => "Mentor assigned successfully and Group Created"
  | _ => "Mentor assigned successfully, but group chat creation failed"
  end.

(** * Properties *)

(** ** Lengths *)

Section Lengths.

Lemma utf16_lead_pos b : 1 ≤ utf16_lead b.
Proof. unfold utf16_lead. case_match; lia. Qed.

Lemma utf16_units_nonneg more s : 0 ≤ utf16_units more s.
Proof.
  revert more. induction s as [|a s IH]; intros more; simpl; [done|].
  pose proof (utf16_lead_pos (Z.of_N (Ascii.N_of_ascii a))).
  pose proof (IH (utf16_tail (Z.of_N (Ascii.N_of_ascii a)))).
  destruct more as [|more]; [lia|].
  case_match; [apply IH|lia].
Qed.

(** A string that is not empty has a code unit. *)
Lemma utf16_length_nonempty a s : 1 ≤ utf16_length (String a s).
Proof.
  unfold utf16_length. simpl.
  pose proof (utf16_lead_pos (Z.of_N (Ascii.N_of_ascii a))).
  pose proof (utf16_units_nonneg (utf16_tail (Z.of_N (Ascii.N_of_ascii a))) s). lia.
Qed.

(** A truthy scalar is not shorter than [1]: it is a string with a character,
    or it has no length. *)
Lemma truthy_length (content : jsval) :
  truthy content = true → js_lt (js_length content) 1 = false.
Proof.
  destruct content as [| | | |s]; simpl; try done.
  destruct s as [|a s]; [done|]. intros _. apply Z.ltb_ge, utf16_length_nonempty.
Qed.

End Lengths.

(** ** Room membership *)

Section Rooms.
Implicit Types (m : gmap jsval (gset jsval)) (u r : jsval).

Lemma addUserToRoom_total m u r :
  addUserToRoom m u r = Some (<[u := default ∅ (m !! u) ∪ {[r]}]> m).
Proof.
  unfold addUserToRoom. case_decide as Hu.
  - destruct Hu as [s Hs]. by rewrite Hs.
  - apply eq_None_not_Some in Hu. rewrite Hu, lookup_insert_eq. simpl.
    by rewrite insert_insert_eq.
Qed.

Lemma removeUserFromRoom_lookup m u r :
  removeUserFromRoom m u r !! u =
    match m !! u with
    | Some s => if decide (size (s ∖ {[r]}) = 0%nat) then None else Some (s ∖ {[r]})
    | None => None
    end.
Proof.
  unfold removeUserFromRoom. destruct (m !! u) as [s|] eqn:Hs.
  - rewrite lookup_insert_eq. case_decide.
    + by rewrite lookup_delete_eq.
    + by rewrite lookup_insert_eq.
  - by rewrite Hs, Hs.
Qed.

Lemma removeUserFromRoom_other m u r u' :
  u ≠ u' → removeUserFromRoom m u r !! u' = m !! u'.
Proof.
  intros Hne. unfold removeUserFromRoom. destruct (m !! u) as [s|] eqn:Hs.
  - rewrite lookup_insert_eq. case_decide.
    + by rewrite lookup_delete_ne, lookup_insert_ne.
    + by rewrite lookup_insert_ne.
  - by rewrite Hs.
Qed.

Lemma is_member_add m u r m' :
  addUserToRoom m u r = Some m' → is_member m' u r = true.
Proof.
  rewrite addUserToRoom_total. intros [= <-]. unfold is_member.
  rewrite lookup_insert_eq. apply bool_decide_eq_true. set_solver.
Qed.

Lemma is_member_remove m u r : is_member (removeUserFromRoom m u r) u r = false.
Proof.
  unfold is_member. rewrite removeUserFromRoom_lookup.
  destruct (m !! u) as [s|]; [|done]. case_decide; [done|].
  apply bool_decide_eq_false. intros [_ Hn]%elem_of_difference.
  by apply Hn, elem_of_singleton.
Qed.

Lemma room_ops_apply_snoc u r ops op m :
  room_ops_apply u r (ops ++ [op]) m =
    match room_ops_apply u r ops m with
    | Some m' => room_op_apply u r op m'
    | None => None
    end.
Proof.
  revert m. induction ops as [|o ops IH]; intros m; simpl.
  - by destruct (room_op_apply u r op m).
  - destruct (room_op_apply u r o m); [apply IH | done].
Qed.

Lemma room_ops_apply_total u r ops m : is_Some (room_ops_apply u r ops m).
Proof.
  revert m. induction ops as [|o ops IH]; intros m; simpl; [by eexists|].
  destruct o; simpl.
  - rewrite addUserToRoom_total. apply IH.
  - apply IH.
Qed.

(** C3. After any non-empty sequence of joins and leaves of one user in one
    room, from any table, the sequence has run without exception and the
    user is a member of the room exactly when the last operation was a
    join; and a leave that leaves the user's set empty removes the user's
    entry. *)
Theorem membership_follows_last_op u r (ops : list room_op) m :
  ops ≠ [] →
  (∃ m', room_ops_apply u r ops m = Some m' ∧
         (is_member m' u r = true ↔ last ops = Some Join)) ∧
  (∀ m0 s, m0 !! u = Some s → s ∖ {[r]} = ∅ →
           removeUserFromRoom m0 u r !! u = None).
Proof.
  intros Hne. split.
  - induction ops as [|o ops _] using rev_ind; [done|].
    rewrite room_ops_apply_snoc, last_snoc.
    destruct (room_ops_apply_total u r ops m) as [m1 ->].
    destruct o; simpl.
    + rewrite addUserToRoom_total. eexists; split; [done|].
      split; [done|]. intros _. eapply is_member_add, addUserToRoom_total.
    + eexists; split; [done|]. rewrite is_member_remove. split; [done|].
      by intros [=].
  - intros m0 s Hs Hempty. rewrite removeUserFromRoom_lookup, Hs, Hempty.
    by rewrite decide_True by apply size_empty.
Qed.

Lemma membership_follows_last_op_witness :
  (∃ m', room_ops_apply (JStr "u1") (JStr "r1") [Join; Leave; Join] ∅ = Some m' ∧
         (is_member m' (JStr "u1") (JStr "r1") = true ↔
          last [Join; Leave; Join] = Some Join)) ∧
  (∀ m0 s, m0 !! JStr "u1" = Some s → s ∖ {[JStr "r1"]} = ∅ →
           removeUserFromRoom m0 (JStr "u1") (JStr "r1") !! JStr "u1" = None).
Proof.
  apply (membership_follows_last_op (JStr "u1") (JStr "r1") [Join; Leave; Join] ∅).
  discriminate.
Defined.

End Rooms.

(** ** The rate limiter *)

Section RateLimiter.
Implicit Types (limits : gmap jsval rate_entry) (u : jsval) (st : state).

Lemma isRateLimited_opens limits u t :
  window_over limits u t →
  isRateLimited limits u t = (false, <[u := RateEntry 1 t]> limits).
Proof.
  unfold window_over, isRateLimited. destruct (limits !! u) as [[k t0]|]; simpl.
  - intros Hover. by rewrite (proj2 (Z.ltb_ge _ _) Hover).
  - intros _. by rewrite Z.sub_diag.
Qed.

Lemma isRateLimited_inside limits u t k t0 :
  limits !! u = Some (RateEntry k t0) → t - t0 < 1000 →
  isRateLimited limits u t = (5 <? k + 1, <[u := RateEntry (k + 1) t0]> limits).
Proof.
  intros Hu Hin. unfold isRateLimited. rewrite Hu. simpl.
  rewrite (proj2 (Z.ltb_lt _ _) Hin). by destruct (5 <? k + 1).
Qed.

Lemma resolve_ext st st' sid :
  socketIdToUserId st' = socketIdToUserId st → resolve st' sid = resolve st sid.
Proof. unfold resolve. by intros ->. Qed.

Lemma acts_as_resolve st sid u : acts_as st sid u → resolve st sid = u.
Proof.
  unfold resolve, js_or. intros [[-> Hu]|[-> ->]]; simpl; [by rewrite Hu|done].
Qed.


Lemma run_timers_messageRateLimits now st :
  messageRateLimits (run_timers now st) = messageRateLimits st.
Proof. done. Qed.





End RateLimiter.

(** ** Validation of ["sendMessage"] *)

Section Validation.
Implicit Types (st : state) (sid : string) (chatId content : jsval).

(** The test is [!chatId || !content]: any falsy field ends the handler with
    the error, before anything is read or written. *)
Lemma on_sendMessage_falsy now sid chatId content cb st :
  truthy chatId = false ∨ truthy content = false →
  step now (SendMessage sid (Some (chatId, content)) cb) st
    = Ok st [missing_fields_error sid].
Proof.
  intros H. simpl. unfold on_sendMessage.
  by destruct H as [-> | ->]; [|rewrite orb_true_r].
Qed.





(** C10. A ["sendMessage"] whose [chatId] or [content] is the empty string is
    answered with [MISSING_FIELDS] and changes nothing, and its outcome is the
    outcome of the same event with that field left out. *)
Theorem empty_string_is_missing now sid chatId content cb st :
  chatId = JStr "" ∨ content = JStr "" →
  step now (SendMessage sid (Some (chatId, content)) cb) st
    = Ok st [SocketEmit sid (ErrorEv "Chat ID and content are required." "MISSING_FIELDS")] ∧
  step now (SendMessage sid (Some (chatId, content)) cb) st
    = step now (SendMessage sid
        (Some (if decide (chatId = JStr "") then JUndefined else chatId,
               if decide (content = JStr "") then JUndefined else content)) cb) st.
Proof.
  intros H.
  assert (step now (SendMessage sid (Some (chatId, content)) cb) st
            = Ok st [missing_fields_error sid]) as Heq.
  { apply on_sendMessage_falsy. by destruct H as [-> | ->]; [left|right]. }
  split; [exact Heq|]. rewrite Heq. symmetry. apply on_sendMessage_falsy.
  destruct H as [-> | ->]; [left|right]; by rewrite decide_True.
Qed.

Lemma empty_string_is_missing_witness :
  step 7 (SendMessage "s1" (Some (JStr "r1", JStr "")) false) init
    = Ok init [SocketEmit "s1" (ErrorEv "Chat ID and content are required." "MISSING_FIELDS")] ∧
  step 7 (SendMessage "s1" (Some (JStr "r1", JStr "")) false) init
    = step 7 (SendMessage "s1"
        (Some (if decide (JStr "r1" = JStr "") then JUndefined else JStr "r1",
               if decide (JStr "" = JStr "") then JUndefined else JStr "")) false) init.
Proof.
  apply (empty_string_is_missing 7 "s1" (JStr "r1") (JStr "") false init).
  right. reflexivity.
Defined.

End Validation.

(** ** Disconnect *)

Section Disconnect.
Implicit Types (st : state) (sid : string) (u : jsval).

Lemma foldr_socket_leave_fields sid (rooms : list jsval) st :
  let st' := foldr (socket_leave sid) st rooms in
  onlineUsers st' = onlineUsers st ∧ userRooms st' = userRooms st ∧
  messageRateLimits st' = messageRateLimits st ∧
  socketIdToUserId st' = socketIdToUserId st ∧ userCache st' = userCache st ∧
  timers st' = timers st ∧ pending st' = pending st ∧
  next_query st' = next_query st.
Proof. induction rooms as [|r rooms IH]; simpl; [done|]. apply IH. Qed.

Lemma foldr_socket_leave_adapter sid (rooms : list jsval) st sid' :
  sid ≠ sid' →
  adapter (foldr (socket_leave sid) st rooms) !! sid' = adapter st !! sid'.
Proof.
  intros Hne. induction rooms as [|r rooms IH]; simpl; [done|].
  by rewrite lookup_alter_ne.
Qed.

Lemma resolve_truthy st sid : sid ≠ "" → truthy (resolve st sid) = true.
Proof.
  intros Hsid. unfold resolve, js_or.
  destruct (truthy (default JUndefined _)) eqn:E; [done|]. simpl.
  apply negb_true_iff, String.eqb_neq, Hsid.
Qed.

Lemma resolve_unbound st sid : socketIdToUserId st !! sid = None → resolve st sid = JStr sid.
Proof. unfold resolve. by intros ->. Qed.

Lemma resolve_bound st sid u :
  socketIdToUserId st !! sid = Some u → truthy u = true → resolve st sid = u.
Proof. unfold resolve, js_or. intros -> Hu. simpl. by rewrite Hu. Qed.

(** What the handler leaves, field by field, when the resolved identity is
    truthy. *)
Lemma on_disconnect_spec st sid :
  truthy (resolve st sid) = true →
  ∃ st', step 0 (Disconnect sid) st = Ok st' [SocketBroadcast sid (UserOffline (resolve st sid))] ∧
    onlineUsers st' = delete (JStr sid) (delete (resolve st sid) (onlineUsers st)) ∧
    socketIdToUserId st' = delete sid (socketIdToUserId st) ∧
    userRooms st' = delete (resolve st sid) (userRooms st) ∧
    messageRateLimits st' = messageRateLimits st ∧ userCache st' = userCache st ∧
    timers st' = timers st ∧ pending st' = pending st ∧
    (∀ sid', sid ≠ sid' → adapter st' !! sid' = adapter st !! sid').
Proof.
  intros Ht. simpl. unfold on_disconnect.
  rewrite (resolve_ext st (set_adapter _ st)) by done. rewrite Ht.
  set (u := resolve st sid). eexists. split; [done|]. simpl.
  destruct (userRooms st !! u) as [rs|]; simpl.
  - destruct (foldr_socket_leave_fields sid (elements rs)
      (set_onlineUsers (delete (JStr sid))
         (set_socketIdToUserId (delete sid)
            (set_onlineUsers (delete u) (set_adapter (delete sid) st)))))
      as (-> & -> & -> & -> & -> & -> & -> & _).
    repeat split. intros sid' Hne.
    rewrite foldr_socket_leave_adapter by done. simpl. by rewrite lookup_delete_ne.
  - repeat split. intros sid' Hne. by rewrite lookup_delete_ne.
Qed.

Lemma step_disconnect_now now sid st : step now (Disconnect sid) st = step 0 (Disconnect sid) st.
Proof. done. Qed.

(** C4. The disconnect handler of a connection that acts as [u] (the user it
    is bound to, or its own id when it was never bound), run once and then a
    second time, ends both times without an exception.  After the first run
    the presence table has no entry for [u] nor for the connection id, the
    binding table has none for the connection and the room table none for
    [u]; the second run, which finds the connection unbound, leaves all that
    as it is: the two registries are the very same, and the room table has
    lost at most the entry under the connection id. *)
Theorem disconnect_idempotent now1 now2 sid u st :
  sid ≠ "" →
  (socketIdToUserId st !! sid = Some u ∧ truthy u = true) ∨
  (socketIdToUserId st !! sid = None ∧ u = JStr sid) →
  ∃ st1 st2,
    step now1 (Disconnect sid) st = Ok st1 [SocketBroadcast sid (UserOffline u)] ∧
    step now2 (Disconnect sid) st1 = Ok st2 [SocketBroadcast sid (UserOffline (JStr sid))] ∧
    (onlineUsers st1 !! u = None ∧ onlineUsers st1 !! JStr sid = None ∧
     socketIdToUserId st1 !! sid = None ∧ userRooms st1 !! u = None) ∧
    (onlineUsers st2 !! u = None ∧ onlineUsers st2 !! JStr sid = None ∧
     socketIdToUserId st2 !! sid = None ∧ userRooms st2 !! u = None ∧
     userRooms st2 !! JStr sid = None) ∧
    onlineUsers st2 = onlineUsers st1 ∧
    socketIdToUserId st2 = socketIdToUserId st1 ∧
    userRooms st2 = delete (JStr sid) (userRooms st1).
Proof.
  intros Hsid Hacts. pose proof (acts_as_resolve st sid u Hacts) as Hres.
  destruct (on_disconnect_spec st sid (resolve_truthy st sid Hsid))
    as (st1 & Hstep1 & Ho1 & Hs1 & Hr1 & _).
  rewrite Hres in Hstep1, Ho1, Hr1.
  assert (socketIdToUserId st1 !! sid = None) as Hunbound
    by (rewrite Hs1; apply lookup_delete_eq).
  pose proof (resolve_unbound st1 sid Hunbound) as Hres1.
  destruct (on_disconnect_spec st1 sid (resolve_truthy st1 sid Hsid))
    as (st2 & Hstep2 & Ho2 & Hs2 & Hr2 & _).
  rewrite Hres1 in Hstep2, Ho2, Hr2.
  assert (onlineUsers st1 !! u = None) as Hu1.
  { rewrite Ho1. apply lookup_delete_None. right. apply lookup_delete_eq. }
  assert (onlineUsers st1 !! JStr sid = None) as Hsid1
    by (rewrite Ho1; apply lookup_delete_eq).
  assert (userRooms st1 !! u = None) as Hroom1 by (rewrite Hr1; apply lookup_delete_eq).
  assert (onlineUsers st2 = onlineUsers st1) as Ho21.
  { rewrite Ho2, (delete_id (onlineUsers st1)) by done. by apply delete_id. }
  assert (socketIdToUserId st2 = socketIdToUserId st1) as Hs21
    by (rewrite Hs2; by rewrite delete_id by done).
  exists st1, st2. rewrite !step_disconnect_now.
  split; [exact Hstep1|]. split; [exact Hstep2|]. split; [done|].
  split; [|done]. rewrite Ho21, Hs21, Hr2. repeat split; try done.
  - apply lookup_delete_None. by right.
  - apply lookup_delete_eq.
Qed.

Lemma disconnect_idempotent_witness :
  (onlineUsers two_users !! JStr "u1" = Some "s1" ∧
   onlineUsers two_users !! JStr "s1" = Some "s1" ∧
   socketIdToUserId two_users !! "s1" = Some (JStr "u1") ∧
   userRooms two_users !! JStr "u1" = Some {[JStr "r1"]}) ∧
  ∃ st1 st2,
    step 6 (Disconnect "s1") two_users = Ok st1 [SocketBroadcast "s1" (UserOffline (JStr "u1"))] ∧
    step 9 (Disconnect "s1") st1 = Ok st2 [SocketBroadcast "s1" (UserOffline (JStr "s1"))] ∧
    (onlineUsers st1 !! JStr "u1" = None ∧ onlineUsers st1 !! JStr "s1" = None ∧
     socketIdToUserId st1 !! "s1" = None ∧ userRooms st1 !! JStr "u1" = None) ∧
    (onlineUsers st2 !! JStr "u1" = None ∧ onlineUsers st2 !! JStr "s1" = None ∧
     socketIdToUserId st2 !! "s1" = None ∧ userRooms st2 !! JStr "u1" = None ∧
     userRooms st2 !! JStr "s1" = None) ∧
    onlineUsers st2 = onlineUsers st1 ∧
    socketIdToUserId st2 = socketIdToUserId st1 ∧
    userRooms st2 = delete (JStr "s1") (userRooms st1).
Proof.
  split; [repeat split; vm_compute; reflexivity|].
  apply (disconnect_idempotent 6 9 "s1" (JStr "u1") two_users); [discriminate|].
  left. split; [vm_compute; reflexivity|reflexivity].
Defined.

(** The states of the next theorem are those a user gets into by
    authenticating on one connection and then on another. *)
Lemma reauthenticate_binds_both t1 t2 a b u st0 :
  a ≠ b → truthy u = true → is_Some (adapter st0 !! b) →
  ∃ st out, run [(t1, Authenticate a (Some u)); (t2, Authenticate b (Some u))] st0 = Ok st out ∧
    socketIdToUserId st !! a = Some u ∧
    socketIdToUserId st !! b = Some u ∧
    onlineUsers st !! u = Some b ∧
    is_Some (adapter st !! b).
Proof.
  intros Hab Hu Hconn. simpl. unfold deliver. simpl. unfold on_authenticate. rewrite Hu.
  repeat (match goal with
          | |- context [match getUserDetails_cached ?s ?v with _ => _ end] =>
              destruct (getUserDetails_cached s v)
          end; simpl);
    eexists _, _; (split; [done|]); simpl;
    rewrite lookup_insert_eq, lookup_insert_ne, !lookup_insert_eq by done; done.
Qed.

(** C9. When connections [a] and [b] are both bound to user [u], [b] being
    the one that authenticated last (the presence entry of [u] names [b]) and
    still connected, the disconnect of [a] resolves to [u]: it deletes the
    presence entry of [u], deletes the whole room set of [u] and broadcasts
    [userOffline] for [u], to [b] among others, while [b] stays bound to [u]
    and subscribed to its rooms in the transport. *)
Theorem stale_disconnect_tears_down_live_user now a b u st :
  a ≠ b → truthy u = true →
  socketIdToUserId st !! a = Some u →
  socketIdToUserId st !! b = Some u →
  onlineUsers st !! u = Some b →
  is_Some (adapter st !! b) →
  ∃ st', step now (Disconnect a) st = Ok st' [SocketBroadcast a (UserOffline u)] ∧
    resolve st a = u ∧
    onlineUsers st' !! u = None ∧
    userRooms st' !! u = None ∧
    resolve st' b = u ∧
    adapter st' !! b = adapter st !! b ∧
    b ∈ recipients (adapter st') (SocketBroadcast a (UserOffline u)).
Proof.
  intros Hab Hu Ha Hb Hon Hconn.
  pose proof (resolve_bound st a u Ha Hu) as Hres.
  destruct (on_disconnect_spec st a) as (st' & Hstep & Ho & Hs & Hr & _ & _ & _ & _ & Had);
    [by rewrite Hres|].
  rewrite Hres in *. exists st'. rewrite step_disconnect_now.
  split; [exact Hstep|]. split; [done|].
  assert (adapter st' !! b = adapter st !! b) as Hadb by by apply Had.
  repeat split.
  - rewrite Ho. apply lookup_delete_None. right. apply lookup_delete_eq.
  - rewrite Hr. apply lookup_delete_eq.
  - apply resolve_bound; [|done]. by rewrite Hs, lookup_delete_ne.
  - exact Hadb.
  - simpl. apply elem_of_difference. split.
    + apply elem_of_dom. by rewrite Hadb.
    + by intros ?%elem_of_singleton.
Qed.

Lemma stale_disconnect_tears_down_live_user_witness :
  let st := two_connections_one_user in
  is_member (userRooms st) (JStr "u1") (JStr "r1") = true ∧
  ∃ st', step 5 (Disconnect "s1") st = Ok st' [SocketBroadcast "s1" (UserOffline (JStr "u1"))] ∧
    resolve st "s1" = JStr "u1" ∧
    onlineUsers st' !! JStr "u1" = None ∧
    userRooms st' !! JStr "u1" = None ∧
    resolve st' "s2" = JStr "u1" ∧
    adapter st' !! "s2" = adapter st !! "s2" ∧
    "s2" ∈ recipients (adapter st') (SocketBroadcast "s1" (UserOffline (JStr "u1"))).
Proof.
  split; [vm_compute; reflexivity|].
  apply (stale_disconnect_tears_down_live_user 5 "s1" "s2" (JStr "u1")
           two_connections_one_user).
  - discriminate.
  - reflexivity.
  - vm_compute; reflexivity.
  - vm_compute; reflexivity.
  - vm_compute; reflexivity.
  - vm_compute. eexists; reflexivity.
Defined.

End Disconnect.

(** ** Identity resolution *)

Section Identity.
Implicit Types (st : state) (sid : string) (u : jsval).




(** ["sendMessage"] with both fields, spelled out. *)
Lemma on_sendMessage_valid now sid c x cb st :
  truthy c = true → truthy x = true →
  let u := resolve st sid in
  let r := isRateLimited (messageRateLimits st) u now in
  let st1 := set_messageRateLimits (λ _, r.2) st in
  step now (SendMessage sid (Some (c, x)) cb) st =
    if r.1 then Ok st1 (sendError sid "Rate limit exceeded. Please slow down." "RATE_LIMIT")
    else match userCache st !! u with
         | Some p => Ok st1 (sendMessage_broadcast now sid c x u cb (Some p))
         | None => Ok (suspend (AwaitSendMessage sid c x u cb) st1) []
         end.
Proof.
  intros Hc Hx. simpl. unfold on_sendMessage. rewrite Hc, Hx. simpl.
  by destruct (isRateLimited _ _ _) as [[] ?].
Qed.



End Identity.

(** ** Sending a message *)

Section Sending.
Implicit Types (st : state) (sid : string) (c x u : jsval).

Lemma elem_of_room_members (ad : gmap string (gset jsval)) (room : jsval) (s : string) :
  s ∈ room_members ad room ↔ ∃ rs, ad !! s = Some rs ∧ room ∈ rs.
Proof.
  unfold room_members. rewrite elem_of_dom. unfold is_Some.
  setoid_rewrite map_lookup_filter_Some. simpl. naive_solver.
Qed.

Lemma getUserDetails_resume_profile now u r st :
  (getUserDetails_resume now u r st).2 = reply_profile r.
Proof. by destruct r as [[]| |]. Qed.

Lemma getUserDetails_resume_miss now u r st :
  r = NotFound ∨ r = Failed → getUserDetails_resume now u r st = (st, None).
Proof. by intros [-> | ->]. Qed.

(** The second half of ["sendMessage"], when the store answers. *)
Lemma on_storeReply_send now q r sid c x u cb st :
  pending st !! q = Some (AwaitSendMessage sid c x u cb) →
  step now (StoreReply q r) st
    = Ok (getUserDetails_resume now u r (set_pending (delete q) st)).1
         (sendMessage_broadcast now sid c x u cb (reply_profile r)).
Proof.
  intros Hq. simpl. unfold on_storeReply. rewrite Hq. simpl.
  by destruct r as [[]| |].
Qed.

(** How a handler changes the table of suspended handlers. *)
Lemma step_pending now e st st' out :
  step now e st = Ok st' out →
  (pending st' = pending st ∧ next_query st' = next_query st) ∨
  (∃ k, pending st' = <[next_query st := k]> (pending st) ∧
        next_query st' = S (next_query st)) ∨
  (∃ q r, e = StoreReply q r ∧ pending st' = delete q (pending st) ∧
          next_query st' = next_query st).
Proof.
  intros Hstep. destruct e; simpl in Hstep.
  - injection Hstep as <- _. by left.
  - unfold on_authenticate in Hstep. destruct payload as [userId|]; [|done].
    destruct (truthy userId); [|injection Hstep as <- _; by left].
    destruct (getUserDetails_cached _ _); injection Hstep as <- _; [by left|].
    right; left. by eexists.
  - unfold on_joinChat in Hstep. destruct (addUserToRoom _ _ _); [|done].
    injection Hstep as <- _. by left.
  - injection Hstep as <- _. by left.
  - unfold on_typing in Hstep. destruct payload as [[]|]; [|done].
    injection Hstep as <- _. by left.
  - unfold on_stopTyping in Hstep. destruct payload as [[]|]; [|done].
    injection Hstep as <- _. by left.
  - unfold on_sendMessage in Hstep. destruct payload as [[c x]|]; [|done].
    destruct (negb (truthy c) || negb (truthy x)); [injection Hstep as <- _; by left|].
    destruct (isRateLimited _ _ _) as [[] ?]; [injection Hstep as <- _; by left|].
    destruct (getUserDetails_cached _ _); injection Hstep as <- _; [by left|].
    right; left. by eexists.
  - unfold on_markMessagesRead in Hstep. destruct payload; [|done].
    injection Hstep as <- _. by left.
  - injection Hstep as <- _. by left.
  - injection Hstep as <- _. by left.
  - unfold on_disconnect in Hstep. injection Hstep as <- _. left. simpl.
    match goal with |- context [userRooms ?s !! ?k] => destruct (userRooms s !! k) as [rs|] end;
      [|by destruct (truthy _)].
    match goal with |- context [foldr (socket_leave ?a) ?s ?l] =>
      destruct (foldr_socket_leave_fields a l s) as (_ & _ & _ & _ & _ & _ & -> & ->) end.
    by destruct (truthy _).
  - unfold on_storeReply in Hstep.
    destruct (pending st !! q) as [k|] eqn:Hq; [|injection Hstep as <- _; by left].
    right; right. exists q, r. split; [done|].
    destruct r; simpl in Hstep; destruct k; by injection Hstep as <- _.
Qed.

(** A suspended handler stays suspended, as it was, until its own answer
    comes. *)
Lemma step_keeps_pending now e st st' out q k :
  queries_fresh st → pending st !! q = Some k → (∀ r, e ≠ StoreReply q r) →
  step now e st = Ok st' out →
  queries_fresh st' ∧ pending st' !! q = Some k.
Proof.
  intros Hfresh Hq Hne Hstep. pose proof (Hfresh q k Hq) as Hlt.
  unfold queries_fresh in *.
  destruct (step_pending now e st st' out Hstep)
    as [[-> ->]|[(k' & -> & ->)|(q' & r & -> & -> & ->)]].
  - done.
  - split.
    + intros q0 k0 [[<- _]|[_ Hq0]]%lookup_insert_Some; [lia|].
      specialize (Hfresh q0 k0 Hq0). lia.
    + rewrite lookup_insert_ne by lia. done.
  - split.
    + intros q0 k0 [_ Hq0]%lookup_delete_Some. by apply (Hfresh q0 k0).
    + rewrite lookup_delete_ne; [done|]. intros ->. by apply (Hne r).
Qed.

Lemma run_keeps_pending evs st st' out q k :
  queries_fresh st → pending st !! q = Some k →
  Forall (λ te, ∀ r, te.2 ≠ StoreReply q r) evs →
  run evs st = Ok st' out →
  queries_fresh st' ∧ pending st' !! q = Some k.
Proof.
  intros Hfresh Hq Hevs. revert st out Hfresh Hq.
  induction Hevs as [|[now e] evs Hne _ IH]; intros st out Hfresh Hq Hrun; simpl in Hrun.
  - by injection Hrun as <- _.
  - destruct (deliver now e st) as [st1 out1|] eqn:Hd; [|done].
    destruct (run evs st1) as [st2 out2|] eqn:Hr; [|done]. injection Hrun as <- _.
    destruct (step_keeps_pending now e (run_timers now st) st1 out1 q k Hfresh Hq Hne Hd)
      as [Hfresh1 Hq1].
    by eapply IH.
Qed.

Lemma step_queries_fresh now e st st' out :
  queries_fresh st → step now e st = Ok st' out → queries_fresh st'.
Proof.
  unfold queries_fresh. intros Hfresh Hstep.
  destruct (step_pending now e st st' out Hstep)
    as [[-> ->]|[(k' & -> & ->)|(q' & r & -> & -> & ->)]].
  - done.
  - intros q0 k0 [[<- _]|[_ Hq0]]%lookup_insert_Some; [lia|].
    specialize (Hfresh q0 k0 Hq0). lia.
  - intros q0 k0 [_ Hq0]%lookup_delete_Some. by apply (Hfresh q0 k0).
Qed.

Lemma run_queries_fresh evs st out : run evs init = Ok st out → queries_fresh st.
Proof.
  assert (queries_fresh init) as Hinit
    by (intros q k Hq; simpl in Hq; by rewrite lookup_empty in Hq).
  revert Hinit. generalize init. intros st0. revert st0 out.
  induction evs as [|[now e] evs IH]; intros st0 out Hfresh Hrun; simpl in Hrun.
  - by injection Hrun as <- _.
  - destruct (deliver now e st0) as [st1 out1|] eqn:Hd; [|done].
    destruct (run evs st1) as [st2 out2|] eqn:Hr; [|done]. injection Hrun as <- _.
    eapply IH; [|exact Hr]. by eapply (step_queries_fresh now e (run_timers now st0)).
Qed.

(** A message that waits for the store is broadcast when the answer comes,
    whatever was handled in between. *)
Lemma suspended_send_resumes st st1 sid c x u cb evs st2 out2 now2 r :
  queries_fresh st →
  st1 = suspend (AwaitSendMessage sid c x u cb) st →
  Forall (λ te, ∀ r', te.2 ≠ StoreReply (next_query st) r') evs →
  run evs st1 = Ok st2 out2 →
  step now2 (StoreReply (next_query st) r) st2
    = Ok (getUserDetails_resume now2 u r (set_pending (delete (next_query st)) st2)).1
         (sendMessage_broadcast now2 sid c x u cb (reply_profile r)).
Proof.
  intros Hfresh -> Hevs Hrun. apply on_storeReply_send.
  eapply (run_keeps_pending evs (suspend _ st)); [| |exact Hevs|exact Hrun].
  - intros q k Hq. simpl in Hq.
    apply lookup_insert_Some in Hq as [[<- _]|[_ Hq]]; simpl; [lia|].
    specialize (Hfresh q k Hq). lia.
  - simpl. apply lookup_insert_eq.
Qed.




(** C8. A ["sendMessage"] that got past validation and the limiter and found
    no cached profile waits for the store; when the store answers that there
    is no such user, or fails, the message is broadcast all the same, with
    the sender [{ _id: userId, name: "Unknown User" }], the acknowledgement is
    made when asked for, and neither the cache nor the eviction timers
    change. *)
Theorem unknown_sender_fallback now sid c x cb st :
  truthy c = true → truthy x = true →
  let u := resolve st sid in
  (isRateLimited (messageRateLimits st) u now).1 = false →
  userCache st !! u = None →
  ∃ st1, step now (SendMessage sid (Some (c, x)) cb) st = Ok st1 [] ∧
    pending st1 !! next_query st = Some (AwaitSendMessage sid c x u cb) ∧
    ∀ evs st2 out2 now2 r,
      queries_fresh st →
      Forall (λ te, ∀ r', te.2 ≠ StoreReply (next_query st) r') evs →
      run evs st1 = Ok st2 out2 →
      r = NotFound ∨ r = Failed →
      ∃ st3, step now2 (StoreReply (next_query st) r) st2
          = Ok st3 (IoTo c (ReceiveMessage
                     {| rm_id := None; rm_chatId := c; rm_senderId := Some u;
                        rm_sender := SenderBrief u (JStr "Unknown User");
                        rm_content := x; rm_createdAt := now2; rm_status := None |})
                    :: (if cb then [Ack sid AckSent] else [])) ∧
        userCache st3 = userCache st2 ∧ timers st3 = timers st2.
Proof.
  intros Hc Hx u Hok Hmiss.
  pose proof (on_sendMessage_valid now sid c x cb st Hc Hx) as Hstep.
  cbn zeta in Hstep. fold u in Hstep. rewrite Hok, Hmiss in Hstep.
  eexists. split; [exact Hstep|]. split; [simpl; apply lookup_insert_eq|].
  intros evs st2 out2 now2 r Hfresh Hevs Hrun Hr. eexists. split.
  - etrans; [exact (suspended_send_resumes
               (set_messageRateLimits (λ _, (isRateLimited (messageRateLimits st) u now).2) st)
               _ sid c x u cb evs st2 out2 now2 r Hfresh eq_refl Hevs Hrun)|].
    rewrite (getUserDetails_resume_miss _ _ _ _ Hr). by destruct Hr as [-> | ->].
  - done.
Qed.

Lemma unknown_sender_fallback_witness :
  ∃ st1, step 3 (SendMessage "s9" (Some (JStr "r1", JStr "hi")) false) init = Ok st1 [] ∧
    ∃ st2 out2 st3, run [(4, JoinChat "s9" (JStr "r1"))] st1 = Ok st2 out2 ∧
      step 8 (StoreReply 0 Failed) st2
      = Ok st3 [IoTo (JStr "r1") (ReceiveMessage
                  {| rm_id := None; rm_chatId := JStr "r1"; rm_senderId := Some (JStr "s9");
                     rm_sender := SenderBrief (JStr "s9") (JStr "Unknown User");
                     rm_content := JStr "hi"; rm_createdAt := 8; rm_status := None |})] ∧
      userCache st3 = userCache st2 ∧ timers st3 = timers st2.
Proof.
  destruct (unknown_sender_fallback 3 "s9" (JStr "r1") (JStr "hi") false init
              eq_refl eq_refl eq_refl eq_refl) as (st1 & Hstep & Hq & Hreply).
  exists st1. split; [exact Hstep|].
  assert (∃ st2 out2, run [(4, JoinChat "s9" (JStr "r1"))] st1 = Ok st2 out2)
    as (st2 & out2 & Hrun).
  { vm_compute in Hstep. injection Hstep as <-. eexists _, _. vm_compute. reflexivity. }
  destruct (Hreply [(4, JoinChat "s9" (JStr "r1"))] st2 out2 8 Failed) as (st3 & Hst3);
    [| |exact Hrun|by right|].
  - intros q k Hk. simpl in Hk. by rewrite lookup_empty in Hk.
  - by repeat constructor.
  - by exists st2, out2, st3.
Defined.

End Sending.

(** ** The profile cache *)

Section Cache.
Implicit Types (st : state) (u : jsval) (user : profile).

(** C5, where the code departs from it.  A profile fetched at [t0] should be
    served from the cache from [t0] until 300 s later.  Two lookups of an
    uncached user that both start before the store answers get two answers,
    each with its own timer, and the timer of the first answer (at 10)
    deletes the entry the second answer stored at 20: at 300015, within
    300 s of 20, the profile is not in the cache. *)
Lemma cache_entry_evicted_early :
  run overlapping_fetches init = Ok after_overlapping_fetches
    [SocketBroadcast "s1" (UserOnline (JStr "s1"))] ∧
  pending after_overlapping_fetches !! 1%nat
    = Some (AwaitSendMessage "s1" (JStr "r1") (JStr "hi") (JStr "u1") false) ∧
  ∃ st1 out,
    deliver 20 (StoreReply 1 (Found ann)) after_overlapping_fetches = Ok st1 out ∧
    userCache st1 !! JStr "u1" = Some ann ∧
    timers st1 = [(300010, JStr "u1"); (300020, JStr "u1")] ∧
    20 ≤ 300015 < 20 + cache_ttl ∧
    getUserDetails_cached (run_timers 300015 st1) (JStr "u1") = None ∧
    ¬ served_for_ttl after_overlapping_fetches 1 ann 20.
Proof.
  split; [vm_compute; reflexivity|]. split; [vm_compute; reflexivity|].
  eexists _, _. split; [vm_compute; reflexivity|].
  split; [vm_compute; reflexivity|]. split; [vm_compute; reflexivity|].
  split; [vm_compute; split; [discriminate|reflexivity]|].
  split; [vm_compute; reflexivity|].
  intros Hclaim.
  specialize (Hclaim (AwaitSendMessage "s1" (JStr "r1") (JStr "hi") (JStr "u1") false)
                _ _ 300015 ltac:(vm_compute; reflexivity) ltac:(vm_compute; reflexivity)
                ltac:(vm_compute; split; [discriminate|reflexivity])).
  vm_compute in Hclaim. discriminate.
Qed.

(** The second timer of that run is stale in the same way: a profile fetched
    afresh at 300018 is deleted by it at 300020. *)
Lemma cache_entry_evicted_after_2ms :
  ∃ st out,
    run (overlapping_fetches ++
         [(20, StoreReply 1 (Found ann));
          (300015, SendMessage "s1" (Some (JStr "r1", JStr "again")) false);
          (300018, StoreReply 2 (Found ann))]) init = Ok st out ∧
    userCache st !! JStr "u1" = Some ann ∧
    timers st = [(300020, JStr "u1"); (600018, JStr "u1")] ∧
    getUserDetails_cached (run_timers 300020 st) (JStr "u1") = None.
Proof.
  eexists _, _. split; [vm_compute; reflexivity|].
  split; [vm_compute; reflexivity|]. split; vm_compute; reflexivity.
Qed.

Lemma cached_until_part u user due st st' :
  cache_part st' = cache_part st → cached_until u user due st → cached_until u user due st'.
Proof.
  unfold cache_part, cached_until, timers_of. intros [= Hc Ht Hp]. by rewrite Hc, Ht, Hp.
Qed.

Lemma cached_until_suspend u user due k st st' :
  cache_part st' = cache_part st →
  userCache st !! suspended_user k = None →
  cached_until u user due st → cached_until u user due (suspend k st').
Proof.
  unfold cache_part, cached_until, timers_of. intros [= Hc Ht Hp] Hmiss (Hu & Htm & Hpend).
  simpl. rewrite Hc, Ht, Hp. repeat split; [done..|].
  intros q k' [[_ <-]|[_ Hq]]%lookup_insert_Some.
  - intros Heq. by rewrite Heq, Hu in Hmiss.
  - by apply (Hpend q).
Qed.

Lemma foldr_delete_lookup (due : list (Z * jsval)) (c : gmap jsval profile) u :
  foldr (λ t c, delete t.2 c) c due !! u
    = if decide (u ∈ due.*2) then None else c !! u.
Proof.
  induction due as [|[d v] due IH]; simpl; [done|].
  destruct (decide (v = u)) as [->|Hne].
  - rewrite lookup_delete_eq. by rewrite decide_True by apply list_elem_of_here.
  - rewrite lookup_delete_ne, IH by done.
    apply decide_ext. simpl. rewrite elem_of_cons.
    split; [by right|]. intros [Heq|?]; [by subst|done].
Qed.

(** The timers that are not yet due leave the entry alone. *)
Lemma run_timers_cached_until u user due now st :
  now < due → cached_until u user due st → cached_until u user due (run_timers now st).
Proof.
  unfold cached_until, timers_of. intros Hnow (Hu & Htm & Hpend). simpl.
  assert (∀ t, t ∈ timers st → t.2 = u → ¬ t.1 ≤ now) as Hlater.
  { intros t Ht Htu.
    assert (t ∈ filter (λ t, t.2 = u) (timers st)) as Hin by by apply list_elem_of_filter.
    rewrite Htm in Hin. apply list_elem_of_singleton in Hin as ->. simpl. lia. }
  repeat split; [| |done].
  - rewrite foldr_delete_lookup. rewrite decide_False; [done|].
    intros ([d v] & Hv & [Hd Hin]%list_elem_of_filter)%list_elem_of_fmap. simpl in *.
    by apply (Hlater (d, v) Hin).
  - rewrite <- Htm. clear Htm. induction (timers st) as [|t ts IH]; [done|].
    rewrite (filter_cons (λ t, ¬ t.1 ≤ now)). case_decide as Hdue.
    + rewrite !filter_cons. case_decide; [f_equal|];
        apply IH; intros t' Ht'; apply Hlater; by right.
    + rewrite (filter_cons_False _ t ts).
      * apply IH. intros t' Ht'. apply Hlater. by right.
      * intros Htu. exact (Hlater t ltac:(by left) Htu Hdue).
Qed.

(** A timer of [u] that is due deletes the entry of [u]. *)
Lemma run_timers_evicts u d now st :
  (d, u) ∈ timers st → d ≤ now → getUserDetails_cached (run_timers now st) u = None.
Proof.
  intros Hin Hd. unfold getUserDetails_cached. simpl.
  rewrite foldr_delete_lookup, decide_True; [done|].
  apply list_elem_of_fmap. exists (d, u). split; [done|]. by apply list_elem_of_filter.
Qed.

(** No handler touches the entry of [u] while it is cached and no answer
    about [u] is awaited: lookups of [u] are hits, and the answers that come
    are about other users. *)
Lemma step_cached_until u user due now e st st' out :
  cached_until u user due st → step now e st = Ok st' out → cached_until u user due st'.
Proof.
  intros Hinv Hstep. destruct e; simpl in Hstep.
  - injection Hstep as <- _. by eapply cached_until_part.
  - unfold on_authenticate in Hstep. destruct payload as [userId|]; [|done].
    destruct (truthy userId); [|by injection Hstep as <- _].
    unfold getUserDetails_cached in Hstep. simpl in Hstep.
    destruct (userCache st !! userId) eqn:E; injection Hstep as <- _.
    + by eapply cached_until_part.
    + by eapply (cached_until_suspend _ _ _ (AwaitAuthenticate userId)).
  - unfold on_joinChat in Hstep. destruct (addUserToRoom _ _ _); [|done].
    injection Hstep as <- _. by eapply cached_until_part.
  - injection Hstep as <- _. by eapply cached_until_part.
  - unfold on_typing in Hstep. destruct payload as [[]|]; [|done]. by injection Hstep as <- _.
  - unfold on_stopTyping in Hstep. destruct payload as [[]|]; [|done]. by injection Hstep as <- _.
  - unfold on_sendMessage in Hstep. destruct payload as [[c x]|]; [|done].
    destruct (negb (truthy c) || negb (truthy x)); [by injection Hstep as <- _|].
    destruct (isRateLimited _ _ _) as [[] ?].
    { injection Hstep as <- _. by eapply cached_until_part. }
    unfold getUserDetails_cached in Hstep. simpl in Hstep.
    destruct (userCache st !! resolve st sid) eqn:E; injection Hstep as <- _.
    + by eapply cached_until_part.
    + by eapply (cached_until_suspend _ _ _ (AwaitSendMessage _ _ _ _ _)).
  - unfold on_markMessagesRead in Hstep. destruct payload; [|done]. by injection Hstep as <- _.
  - by injection Hstep as <- _.
  - by injection Hstep as <- _.
  - unfold on_disconnect in Hstep. injection Hstep as <- _.
    eapply cached_until_part; [|exact Hinv]. unfold cache_part. simpl.
    match goal with |- context [userRooms ?s !! ?k] => destruct (userRooms s !! k) as [rs|] end;
      [|by destruct (truthy _)].
    match goal with |- context [foldr (socket_leave ?a) ?s ?l] =>
      destruct (foldr_socket_leave_fields a l s) as (_ & _ & _ & _ & -> & -> & -> & _) end.
    by destruct (truthy _).
  - unfold on_storeReply in Hstep.
    destruct (pending st !! q) as [k|] eqn:Hq; [|by injection Hstep as <- _].
    destruct Hinv as (Hu & Htm & Hpend). pose proof (Hpend q k Hq) as Hne.
    assert (cached_until u user due
              (getUserDetails_resume now (suspended_user k) r (set_pending (delete q) st)).1)
      as Hinv'.
    { unfold cached_until, timers_of in *. destruct r as [found| |]; simpl.
      - rewrite lookup_insert_ne by done. rewrite filter_app, Htm, filter_cons_False by done.
        repeat split; [done..|]. intros q' k' [_ Hq']%lookup_delete_Some. by apply (Hpend q').
      - repeat split; [done..|]. intros q' k' [_ Hq']%lookup_delete_Some. by apply (Hpend q').
      - repeat split; [done..|]. intros q' k' [_ Hq']%lookup_delete_Some. by apply (Hpend q'). }
    destruct (getUserDetails_resume _ _ _ _) as [st1 d]. simpl in Hinv'.
    destruct k; by injection Hstep as <- _.
Qed.

Lemma run_cached_until u user due evs st st' out :
  Forall (λ te, te.1 < due) evs →
  cached_until u user due st → run evs st = Ok st' out → cached_until u user due st'.
Proof.
  intros Hevs. revert st out. induction Hevs as [|[now e] evs Hnow _ IH];
    intros st out Hinv Hrun; simpl in Hrun.
  - by injection Hrun as <- _.
  - destruct (deliver now e st) as [st1 out1|] eqn:Hd; [|done].
    destruct (run evs st1) as [st2 out2|] eqn:Hr; [|done]. injection Hrun as <- _.
    eapply IH; [|exact Hr]. eapply step_cached_until; [|exact Hd].
    by apply run_timers_cached_until.
Qed.

Lemma filter_none {A} (P : A → Prop) `{!∀ x, Decision (P x)} (l : list A) :
  (∀ x, x ∈ l → ¬ P x) → filter P l = [].
Proof.
  induction l as [|a l IH]; intros Hl; [done|].
  rewrite filter_cons_False by (apply Hl; by left).
  apply IH. intros x Hx. apply Hl. by right.
Qed.

(** The answer that fills the cache sets the one timer of the entry, when no
    timer of an earlier entry of the user is left and no other lookup of the
    user is under way. *)
Lemma reply_caches_until st q k user t0 st1 out :
  pending st !! q = Some k →
  (∀ d, (d, suspended_user k) ∈ timers st → d ≤ t0) →
  (∀ q' k', pending st !! q' = Some k' → suspended_user k' = suspended_user k → q' = q) →
  deliver t0 (StoreReply q (Found user)) st = Ok st1 out →
  cached_until (suspended_user k) user (t0 + cache_ttl) st1.
Proof.
  intros Hq Hold Hsingle Hd. unfold deliver in Hd. simpl in Hd.
  unfold on_storeReply in Hd. simpl in Hd. rewrite Hq in Hd. simpl in Hd.
  assert (st1 = set_timers (λ ts, ts ++ [(t0 + cache_ttl, suspended_user k)])
                  (set_userCache (insert (suspended_user k) user)
                     (set_pending (delete q) (run_timers t0 st)))) as ->.
  { destruct user. destruct k; by injection Hd as <- _. }
  unfold cached_until, timers_of. simpl. split; [apply lookup_insert_eq|]. split.
  - rewrite filter_app, filter_cons_True, filter_nil by done.
    rewrite filter_none; [done|].
    intros [d v] [Hdue Hin]%list_elem_of_filter Hv.
    simpl in *. subst v. by apply Hdue, Hold.
  - intros q' k' [Hne Hq']%lookup_delete_Some Heq. apply Hne. symmetry.
    by apply (Hsingle q' k').
Qed.

(** The time to live, when lookups of the user do not overlap.  A profile the
    store returns at [t0], when no eviction timer of the user is still to
    come and no other lookup of the user awaits the store, is in the cache at
    every event before [t0 + cache_ttl], whatever events are handled
    meanwhile; hits do not move its eviction, which stays due at
    [t0 + cache_ttl]; from then on the entry is gone, and the next message of
    the user asks the store again. *)
Theorem cache_ttl_window st q k user t0 st1 out evs st2 out2 :
  pending st !! q = Some k →
  let u := suspended_user k in
  (∀ d, (d, u) ∈ timers st → d ≤ t0) →
  (∀ q' k', pending st !! q' = Some k' → suspended_user k' = u → q' = q) →
  deliver t0 (StoreReply q (Found user)) st = Ok st1 out →
  Forall (λ te, te.1 < t0 + cache_ttl) evs →
  run evs st1 = Ok st2 out2 →
  (∀ t, t < t0 + cache_ttl → getUserDetails_cached (run_timers t st2) u = Some user) ∧
  timers_of u st2 = [(t0 + cache_ttl, u)] ∧
  (∀ t, t0 + cache_ttl ≤ t → getUserDetails_cached (run_timers t st2) u = None) ∧
  (∀ t sid c x cb, t0 + cache_ttl ≤ t → resolve st2 sid = u →
     truthy c = true → truthy x = true →
     (isRateLimited (messageRateLimits st2) u t).1 = false →
     ∃ st3, deliver t (SendMessage sid (Some (c, x)) cb) st2 = Ok st3 [] ∧
       pending st3 !! next_query st2 = Some (AwaitSendMessage sid c x u cb)).
Proof.
  intros Hq u Hold Hsingle Hd Hevs Hrun.
  pose proof (reply_caches_until st q k user t0 st1 out Hq Hold Hsingle Hd) as Hinv1.
  pose proof (run_cached_until _ _ _ _ _ _ _ Hevs Hinv1 Hrun) as Hinv2. fold u in Hinv2.
  assert (∀ t, t0 + cache_ttl ≤ t → getUserDetails_cached (run_timers t st2) u = None)
    as Hgone.
  { intros t Ht. apply (run_timers_evicts u (t0 + cache_ttl)); [|done].
    destruct Hinv2 as (_ & Htm & _). unfold timers_of in Htm.
    assert ((t0 + cache_ttl, u) ∈ filter (λ t, t.2 = u) (timers st2)) as Hin
      by (rewrite Htm; by left).
    by apply list_elem_of_filter in Hin as [_ Hin]. }
  split; [|split; [|split]].
  - intros t Ht. by destruct (run_timers_cached_until u user _ t st2 Ht Hinv2) as [? _].
  - by destruct Hinv2 as (_ & ? & _).
  - exact Hgone.
  - intros t sid c x cb Ht Hres Hc Hx Hok. unfold deliver.
    pose proof (on_sendMessage_valid t sid c x cb (run_timers t st2) Hc Hx) as Hstep.
    cbn zeta in Hstep. rewrite (resolve_ext st2 (run_timers t st2)) in Hstep by done.
    rewrite Hres, run_timers_messageRateLimits, Hok in Hstep.
    specialize (Hgone t Ht). unfold getUserDetails_cached in Hgone.
    rewrite Hgone in Hstep. eexists. split; [exact Hstep|]. simpl. apply lookup_insert_eq.
Qed.

(** The profile of [u1] is fetched at 2 and a message of [u1] is handled at
    299999: the entry is there at 300001 and gone at 300002. *)
Lemma cache_ttl_window_witness :
  let st := match run [(0, Connection "s1"); (1, Authenticate "s1" (Some (JStr "u1")))] init with
            | Ok st _ => st
            | Throw => init
            end in
  let evs := [(299999, SendMessage "s1" (Some (JStr "r1", JStr "hi")) false)] in
  ∃ st1 st2 out out2,
    deliver 2 (StoreReply 0 (Found ann)) st = Ok st1 out ∧ run evs st1 = Ok st2 out2 ∧
    getUserDetails_cached (run_timers 300001 st2) (JStr "u1") = Some ann ∧
    timers_of (JStr "u1") st2 = [(2 + cache_ttl, JStr "u1")] ∧
    getUserDetails_cached (run_timers 300002 st2) (JStr "u1") = None.
Proof.
  intros st evs.
  assert (∃ st1 out, deliver 2 (StoreReply 0 (Found ann)) st = Ok st1 out) as (st1 & out & Hd)
    by (eexists _, _; vm_compute; reflexivity).
  assert (∃ st2 out2, run evs st1 = Ok st2 out2) as (st2 & out2 & Hrun).
  { vm_compute in Hd. injection Hd as <- _. eexists _, _. vm_compute. reflexivity. }
  destruct (cache_ttl_window st 0%nat (AwaitAuthenticate (JStr "u1")) ann 2 st1 out evs st2 out2)
    as (Hin & Htm & Hout & _).
  - vm_compute. reflexivity.
  - intros d Hd'. vm_compute in Hd'. by apply elem_of_nil in Hd'.
  - intros q' k' Hq' _.
    assert (pending st = <[0%nat := AwaitAuthenticate (JStr "u1")]> ∅) as Hp
      by (vm_compute; reflexivity).
    rewrite Hp in Hq'. by apply lookup_insert_Some in Hq' as [[<- _]|[_ Hq']].
  - exact Hd.
  - repeat constructor.
  - exact Hrun.
  - exists st1, st2, out, out2. split; [done|]. split; [done|].
    split; [apply Hin; reflexivity|]. split; [exact Htm|]. apply Hout. vm_compute. discriminate.
Defined.

End Cache.

(** * Further properties of the socket layer *)

(** ** The room table across handlers *)

Section RoomTable.
Implicit Types (st : state) (sid : string) (u c : jsval).

(** The handlers that write [userRooms], and what they write. *)
Lemma step_userRooms now e st st' out :
  step now e st = Ok st' out →
  userRooms st' =
    match e with
    | JoinChat sid c =>
        <[resolve st sid := default ∅ (userRooms st !! resolve st sid) ∪ {[c]}]> (userRooms st)
    | LeaveChat sid c => removeUserFromRoom (userRooms st) (resolve st sid) c
    | Disconnect sid => delete (resolve st sid) (userRooms st)
    | _ => userRooms st
    end.
Proof.
  intros Hstep. destruct e; simpl in Hstep.
  - by injection Hstep as <- _.
  - unfold on_authenticate in Hstep. destruct payload as [userId|]; [|done].
    destruct (truthy userId); [|by injection Hstep as <- _].
    destruct (getUserDetails_cached _ _); by injection Hstep as <- _.
  - unfold on_joinChat in Hstep. simpl in Hstep.
    rewrite addUserToRoom_total in Hstep. by injection Hstep as <- _.
  - by injection Hstep as <- _.
  - unfold on_typing in Hstep. destruct payload as [[]|]; [|done]. by injection Hstep as <- _.
  - unfold on_stopTyping in Hstep. destruct payload as [[]|]; [|done]. by injection Hstep as <- _.
  - unfold on_sendMessage in Hstep. destruct payload as [[c x]|]; [|done].
    destruct (negb (truthy c) || negb (truthy x)); [by injection Hstep as <- _|].
    destruct (isRateLimited _ _ _) as [[] ?]; [by injection Hstep as <- _|].
    destruct (getUserDetails_cached _ _); by injection Hstep as <- _.
  - unfold on_markMessagesRead in Hstep. destruct payload; [|done]. by injection Hstep as <- _.
  - by injection Hstep as <- _.
  - by injection Hstep as <- _.
  - unfold on_disconnect in Hstep. injection Hstep as <- _. simpl.
    rewrite (resolve_ext st (set_adapter _ st)) by done.
    match goal with |- context [userRooms ?s !! ?k] => destruct (userRooms s !! k) as [rs|] end;
      [|by destruct (truthy _)].
    match goal with |- context [foldr (socket_leave ?a) ?s ?l] =>
      destruct (foldr_socket_leave_fields a l s) as (_ & -> & _) end.
    by destruct (truthy _).
  - unfold on_storeReply in Hstep.
    destruct (pending st !! q) as [k|]; [|by injection Hstep as <- _].
    destruct r; simpl in Hstep; destruct k; by injection Hstep as <- _.
Qed.

Lemma step_rooms_nonempty now e st st' out :
  rooms_nonempty st → step now e st = Ok st' out → rooms_nonempty st'.
Proof.
  unfold rooms_nonempty. intros Hinv Hstep u s.
  rewrite (step_userRooms now e st st' out Hstep). destruct e; try apply Hinv.
  - intros [[_ <-]|[_ Hu]]%lookup_insert_Some; [|by apply (Hinv u)].
    intros Hempty. assert (chatId ∈ (∅ : gset jsval)) as Hin; [|by apply not_elem_of_empty in Hin].
    rewrite <- Hempty. apply elem_of_union_r. by apply elem_of_singleton.
  - destruct (decide (resolve st sid = u)) as [<-|Hne].
    + rewrite removeUserFromRoom_lookup.
      destruct (userRooms st !! resolve st sid) as [s0|]; [|done].
      case_decide as Hsize; [done|]. intros [= <-] Hempty. apply Hsize.
      rewrite Hempty. apply size_empty.
    + rewrite removeUserFromRoom_other by done. apply Hinv.
  - intros [_ Hu]%lookup_delete_Some. by apply (Hinv u).
Qed.

(** X1. In every state the server can reach, every user that [userRooms]
    holds has at least one room: a leave that empties a set and a disconnect
    both remove the entry, and a join never stores a set without the room. *)
Theorem userRooms_never_holds_empty_set evs st out :
  run evs init = Ok st out → rooms_nonempty st.
Proof.
  assert (rooms_nonempty init) as Hinit
    by (intros u s Hu; simpl in Hu; by rewrite lookup_empty in Hu).
  revert Hinit. generalize init. intros st0. revert st0 out.
  induction evs as [|[now e] evs IH]; intros st0 out Hinv Hrun; simpl in Hrun.
  - by injection Hrun as <- _.
  - destruct (deliver now e st0) as [st1 out1|] eqn:Hd; [|done].
    destruct (run evs st1) as [st2 out2|] eqn:Hr; [|done]. injection Hrun as <- _.
    eapply IH; [|exact Hr]. by eapply (step_rooms_nonempty now e (run_timers now st0)).
Qed.

Lemma userRooms_never_holds_empty_set_witness :
  rooms_nonempty
    (match run [(0, Connection "s1"); (1, JoinChat "s1" (JStr "r1"));
                (2, LeaveChat "s1" (JStr "r1"))] init with
     | Ok st _ => st
     | Throw => init
     end).
Proof.
  eapply (userRooms_never_holds_empty_set
            [(0, Connection "s1"); (1, JoinChat "s1" (JStr "r1"));
             (2, LeaveChat "s1" (JStr "r1"))] _
            [SocketBroadcast "s1" (UserOnline (JStr "s1"))]).
  vm_compute. reflexivity.
Defined.

End RoomTable.

(** ** Joining and leaving *)

Section JoinLeave.
Implicit Types (st : state) (sid : string) (u c : jsval).

Lemma on_joinChat_spec now sid c st :
  step now (JoinChat sid c) st
    = Ok (set_userRooms
            (λ m, <[resolve st sid := default ∅ (m !! resolve st sid) ∪ {[c]}]> m)
            (socket_join sid c st)) [].
Proof. simpl. unfold on_joinChat. simpl. by rewrite addUserToRoom_total. Qed.

Lemma state_eq st st' :
  onlineUsers st = onlineUsers st' → userRooms st = userRooms st' →
  messageRateLimits st = messageRateLimits st' →
  socketIdToUserId st = socketIdToUserId st' → userCache st = userCache st' →
  timers st = timers st' → pending st = pending st' →
  next_query st = next_query st' → adapter st = adapter st' → st = st'.
Proof. destruct st, st'. simpl. by intros -> -> -> -> -> -> -> -> ->. Qed.

(** X2. Joining a room a second time changes nothing: the second ["joinChat"]
    of the same connection for the same room returns the state the first one
    left, room table and transport subscriptions included. *)
Theorem joinChat_idempotent now1 now2 sid c st :
  ∃ st1, step now1 (JoinChat sid c) st = Ok st1 [] ∧
         step now2 (JoinChat sid c) st1 = Ok st1 [].
Proof.
  eexists. split; [apply on_joinChat_spec|]. rewrite on_joinChat_spec. f_equal.
  set (u := resolve st sid).
  apply state_eq; try done; simpl.
  - change (resolve _ sid) with u. rewrite lookup_insert_eq, insert_insert_eq. simpl.
    f_equal. set_solver.
  - apply map_eq. intros s. destruct (decide (sid = s)) as [<-|Hs].
    + rewrite !lookup_alter_eq. destruct (adapter st !! sid) as [rs|]; [|done].
      simpl. f_equal. set_solver.
    + by rewrite !lookup_alter_ne.
Qed.

(** X3. A leave undoes a join.  When the identity of the connection is not
    yet a member of the room (and holds no empty room set) and the socket is
    not subscribed to it, ["joinChat"] followed by ["leaveChat"] gives back
    the state from before the join. *)
Theorem leaveChat_undoes_joinChat now1 now2 sid c st :
  is_member (userRooms st) (resolve st sid) c = false →
  userRooms st !! resolve st sid ≠ Some ∅ →
  (∀ rs, adapter st !! sid = Some rs → c ∉ rs) →
  ∃ st1, step now1 (JoinChat sid c) st = Ok st1 [] ∧
         step now2 (LeaveChat sid c) st1 = Ok st [].
Proof.
  intros Hmem Hne Hsub. eexists. split; [apply on_joinChat_spec|].
  simpl. unfold on_leaveChat. f_equal. set (u := resolve st sid) in *.
  apply state_eq; try done; simpl.
  - change (resolve _ sid) with u. apply map_eq. intros u'.
    destruct (decide (u = u')) as [<-|Hu'].
    + rewrite removeUserFromRoom_lookup, lookup_insert_eq. unfold is_member in Hmem.
      destruct (userRooms st !! u) as [s|] eqn:Hs.
      * change (default ∅ (Some s)) with s.
        apply bool_decide_eq_false in Hmem.
        assert ((s ∪ {[c]}) ∖ {[c]} = s) as -> by set_solver.
        rewrite decide_False; [done|]. intros Hsize. apply Hne. f_equal.
        by apply size_empty_iff, leibniz_equiv in Hsize.
      * change (default ∅ None) with (∅ : gset jsval).
        assert (((∅ : gset jsval) ∪ {[c]}) ∖ {[c]} = ∅) as -> by set_solver.
        rewrite decide_True; [done|by apply size_empty_iff].
    + by rewrite removeUserFromRoom_other, lookup_insert_ne.
  - apply map_eq. intros s. destruct (decide (sid = s)) as [<-|Hs].
    + rewrite !lookup_alter_eq. destruct (adapter st !! sid) as [rs|] eqn:Hrs; [|done].
      simpl. f_equal. specialize (Hsub rs eq_refl). set_solver.
    + by rewrite !lookup_alter_ne.
Qed.

Lemma leaveChat_undoes_joinChat_witness :
  ∃ st1, step 1 (JoinChat "s1" (JStr "r2")) cached_sender = Ok st1 [] ∧
         step 2 (LeaveChat "s1" (JStr "r2")) st1 = Ok cached_sender [].
Proof.
  apply (leaveChat_undoes_joinChat 1 2 "s1" (JStr "r2") cached_sender).
  - vm_compute. reflexivity.
  - vm_compute. discriminate.
  - intros rs Hrs Hin.
    assert (adapter cached_sender !! "s1" = Some {[JStr "s1"; JStr "r1"]}) as Had
      by (vm_compute; reflexivity).
    rewrite Had in Hrs. injection Hrs as <-.
    apply elem_of_union in Hin as [Hin|Hin]; by apply elem_of_singleton in Hin.
Defined.

(** X4. A join or a leave concerns one identity and one room: the
    membership of every other pair of user and room is what it was, and so
    are the presence table, the bindings, the rate table and the cache. *)
Theorem join_leave_frame now sid c st e :
  e = JoinChat sid c ∨ e = LeaveChat sid c →
  ∃ st', step now e st = Ok st' [] ∧
    (∀ u' c', u' ≠ resolve st sid ∨ c' ≠ c →
       is_member (userRooms st') u' c' = is_member (userRooms st) u' c') ∧
    onlineUsers st' = onlineUsers st ∧ socketIdToUserId st' = socketIdToUserId st ∧
    messageRateLimits st' = messageRateLimits st ∧ userCache st' = userCache st.
Proof.
  intros [-> | ->].
  - eexists. split; [apply on_joinChat_spec|]. split; [|done].
    intros u' c' Hother. unfold is_member. simpl. set (u := resolve st sid) in *.
    destruct (decide (u' = u)) as [->|Hu].
    + destruct Hother as [?|Hc]; [done|]. rewrite lookup_insert_eq.
      destruct (userRooms st !! u) as [s|]; simpl.
      * apply bool_decide_ext. set_solver.
      * apply bool_decide_eq_false. set_solver.
    + by rewrite lookup_insert_ne.
  - eexists. split; [done|]. split; [|done].
    intros u' c' Hother. unfold is_member. simpl. set (u := resolve st sid) in *.
    destruct (decide (u' = u)) as [->|Hu].
    + destruct Hother as [?|Hc]; [done|]. rewrite removeUserFromRoom_lookup.
      destruct (userRooms st !! u) as [s|]; [|done]. case_decide as Hsize.
      * symmetry. apply bool_decide_eq_false. intros Hin.
        apply size_empty_iff in Hsize. set_solver.
      * apply bool_decide_ext. set_solver.
    + by rewrite removeUserFromRoom_other.
Qed.

Lemma join_leave_frame_witness :
  ∃ st', step 1 (LeaveChat "s1" (JStr "r2")) cached_sender = Ok st' [] ∧
    (∀ u' c', u' ≠ resolve cached_sender "s1" ∨ c' ≠ JStr "r2" →
       is_member (userRooms st') u' c' = is_member (userRooms cached_sender) u' c') ∧
    onlineUsers st' = onlineUsers cached_sender ∧
    socketIdToUserId st' = socketIdToUserId cached_sender ∧
    messageRateLimits st' = messageRateLimits cached_sender ∧
    userCache st' = userCache cached_sender.
Proof.
  apply (join_leave_frame 1 "s1" (JStr "r2") cached_sender (LeaveChat "s1" (JStr "r2"))).
  by right.
Defined.

(** X5. Rooms joined before authenticating are recorded under the connection
    id, and the disconnect of a connection that has since authenticated
    clears the room set of the user only: after join, authenticate and
    disconnect, the connection id is still recorded as a member of the room. *)
Theorem rooms_joined_before_authenticate_outlive_disconnect t1 t2 t3 sid c u st :
  socketIdToUserId st !! sid = None →
  truthy u = true → u ≠ JStr sid →
  ∃ st' out,
    run [(t1, JoinChat sid c); (t2, Authenticate sid (Some u)); (t3, Disconnect sid)] st
      = Ok st' out ∧
    socketIdToUserId st' !! sid = None ∧
    is_member (userRooms st') (JStr sid) c = true.
Proof.
  intros Hunbound Hu Hne.
  destruct (deliver t1 (JoinChat sid c) st) as [st1 out1|] eqn:H1;
    [|by unfold deliver in H1; rewrite on_joinChat_spec in H1].
  destruct (deliver t2 (Authenticate sid (Some u)) st1) as [st2 out2|] eqn:H2;
    [|by unfold deliver in H2; simpl in H2; unfold on_authenticate in H2;
        rewrite Hu in H2; destruct (getUserDetails_cached _ _)].
  destruct (deliver t3 (Disconnect sid) st2) as [st3 out3|] eqn:H3; [|done].
  unfold run. rewrite H1, H2, H3. eexists _, _. split; [done|].
  unfold deliver in *.
  pose proof (step_userRooms _ _ _ _ _ H1) as R1.
  pose proof (step_userRooms _ _ _ _ _ H2) as R2.
  pose proof (step_userRooms _ _ _ _ _ H3) as R3. simpl in R1, R2, R3.
  assert (resolve (run_timers t1 st) sid = JStr sid) as Hres1 by by apply resolve_unbound.
  assert (socketIdToUserId st2 !! sid = Some u) as Hb2.
  { simpl in H2. unfold on_authenticate in H2. rewrite Hu in H2.
    destruct (getUserDetails_cached _ _); injection H2 as <- _; apply lookup_insert_eq. }
  assert (resolve (run_timers t3 st2) sid = u) as Hres3 by by apply resolve_bound.
  split.
  - destruct (on_disconnect_spec (run_timers t3 st2) sid) as (st3' & Hs & _ & Hsock & _).
    { rewrite Hres3. done. }
    rewrite step_disconnect_now in H3. rewrite H3 in Hs. injection Hs as <- _.
    rewrite Hsock. apply lookup_delete_eq.
  - unfold is_member. rewrite R3, Hres3, lookup_delete_ne by done.
    rewrite R2, R1, Hres1, lookup_insert_eq.
    apply bool_decide_eq_true. set_solver.
Qed.

Lemma rooms_joined_before_authenticate_outlive_disconnect_witness :
  ∃ st' out,
    run [(1, JoinChat "s7" (JStr "r1")); (2, Authenticate "s7" (Some (JStr "u7")));
         (3, Disconnect "s7")] init = Ok st' out ∧
    socketIdToUserId st' !! "s7" = None ∧
    is_member (userRooms st') (JStr "s7") (JStr "r1") = true.
Proof.
  apply (rooms_joined_before_authenticate_outlive_disconnect 1 2 3 "s7" (JStr "r1")
           (JStr "u7") init); [reflexivity|reflexivity|discriminate].
Defined.

End JoinLeave.

(** ** The limiter across a window edge *)

Section Burst.
Implicit Types (limits : gmap jsval rate_entry) (u : jsval) (st : state).

Lemma accepted_count_cons b bs :
  accepted_count (b :: bs) = ((if b then 0 else 1) + accepted_count bs)%nat.
Proof. unfold accepted_count. rewrite filter_cons. by destruct b. Qed.

(** Calls that stay inside the window of the stored entry: the counter lets
    through what is left of the five. *)
Lemma rate_calls_inside limits u k s ts :
  limits !! u = Some (RateEntry k s) → 0 ≤ k →
  Forall (λ t, t - s < 1000) ts →
  (accepted_count (rate_calls u ts limits) ≤ Z.to_nat (5 - k))%nat.
Proof.
  intros Hu Hk Hts. revert limits k Hu Hk.
  induction Hts as [|t ts Ht _ IH]; intros limits k Hu Hk; simpl; [unfold accepted_count; simpl; lia|].
  rewrite (isRateLimited_inside _ _ _ _ _ Hu Ht). simpl. rewrite accepted_count_cons.
  specialize (IH (<[u := RateEntry (k + 1) s]> limits) (k + 1)).
  rewrite lookup_insert_eq in IH. specialize (IH eq_refl ltac:(lia)).
  destruct (5 <? k + 1) eqn:E; [apply Z.ltb_lt in E|apply Z.ltb_ge in E]; lia.
Qed.

(** Calls within one span of 1000 ms leave the stored window at most once. *)
Lemma rate_calls_span limits u k s a ts :
  limits !! u = Some (RateEntry k s) → 0 ≤ k →
  Forall (λ t, a ≤ t < a + 1000) ts →
  (accepted_count (rate_calls u ts limits) ≤ Z.to_nat (5 - k) + 5)%nat.
Proof.
  intros Hu Hk Hts. revert limits k Hu Hk.
  induction Hts as [|t ts Ht Hts IH]; intros limits k Hu Hk; simpl; [unfold accepted_count; simpl; lia|].
  destruct (decide (t - s < 1000)) as [Hin|Hout].
  - rewrite (isRateLimited_inside _ _ _ _ _ Hu Hin). simpl. rewrite accepted_count_cons.
    specialize (IH (<[u := RateEntry (k + 1) s]> limits) (k + 1)).
    rewrite lookup_insert_eq in IH. specialize (IH eq_refl ltac:(lia)).
    destruct (5 <? k + 1) eqn:E; [apply Z.ltb_lt in E|apply Z.ltb_ge in E]; lia.
  - rewrite isRateLimited_opens by (unfold window_over; rewrite Hu; simpl; lia).
    simpl. rewrite accepted_count_cons.
    pose proof (rate_calls_inside (<[u := RateEntry 1 t]> limits) u 1 t ts) as Hrest.
    rewrite lookup_insert_eq in Hrest. specialize (Hrest eq_refl ltac:(lia)).
    assert (Forall (λ t', t' - t < 1000) ts) as Hts'
      by (eapply Forall_impl; [exact Hts|]; simpl; intros; lia).
    specialize (Hrest Hts'). change (Z.to_nat (5 - 1)) with 4%nat in Hrest. lia.
Qed.

Lemma isRateLimited_counts_positive limits u t :
  counts_positive limits → counts_positive (isRateLimited limits u t).2.
Proof.
  unfold counts_positive. intros Hinv u' e. unfold isRateLimited.
  destruct (limits !! u) as [[k s]|] eqn:Hu; simpl.
  - pose proof (Hinv u _ Hu) as Hk. simpl in Hk.
    destruct (t - s <? 1000); [destruct (5 <? k + 1)|]; simpl;
      (intros [[_ <-]|[_ He]]%lookup_insert_Some; [simpl; lia|by apply (Hinv u')]).
  - rewrite Z.sub_diag. simpl.
    intros [[_ <-]|[_ He]]%lookup_insert_Some; [simpl; lia|by apply (Hinv u')].
Qed.

Lemma step_counts_positive now e st st' out :
  counts_positive (messageRateLimits st) → step now e st = Ok st' out →
  counts_positive (messageRateLimits st').
Proof.
  intros Hinv Hstep. destruct e; simpl in Hstep.
  - by injection Hstep as <- _.
  - unfold on_authenticate in Hstep. destruct payload as [userId|]; [|done].
    destruct (truthy userId); [|by injection Hstep as <- _].
    destruct (getUserDetails_cached _ _); by injection Hstep as <- _.
  - unfold on_joinChat in Hstep. destruct (addUserToRoom _ _ _); [|done].
    by injection Hstep as <- _.
  - by injection Hstep as <- _.
  - unfold on_typing in Hstep. destruct payload as [[]|]; [|done]. by injection Hstep as <- _.
  - unfold on_stopTyping in Hstep. destruct payload as [[]|]; [|done]. by injection Hstep as <- _.
  - unfold on_sendMessage in Hstep. destruct payload as [[c x]|]; [|done].
    destruct (negb (truthy c) || negb (truthy x)); [by injection Hstep as <- _|].
    pose proof (isRateLimited_counts_positive (messageRateLimits st) (resolve st sid) now Hinv)
      as Hinv'.
    destruct (isRateLimited _ _ _) as [[] limits]; simpl in Hinv';
      [by injection Hstep as <- _|].
    destruct (getUserDetails_cached _ _); by injection Hstep as <- _.
  - unfold on_markMessagesRead in Hstep. destruct payload; [|done]. by injection Hstep as <- _.
  - by injection Hstep as <- _.
  - by injection Hstep as <- _.
  - unfold on_disconnect in Hstep. injection Hstep as <- _. simpl.
    match goal with |- context [userRooms ?s !! ?k] => destruct (userRooms s !! k) as [rs|] end;
      [|by destruct (truthy _)].
    match goal with |- context [foldr (socket_leave ?a) ?s ?l] =>
      destruct (foldr_socket_leave_fields a l s) as (_ & _ & -> & _) end.
    by destruct (truthy _).
  - unfold on_storeReply in Hstep.
    destruct (pending st !! q) as [k|]; [|by injection Hstep as <- _].
    destruct r; simpl in Hstep; destruct k; by injection Hstep as <- _.
Qed.

Lemma run_counts_positive evs st out :
  run evs init = Ok st out → counts_positive (messageRateLimits st).
Proof.
  assert (counts_positive (messageRateLimits init)) as Hinit
    by (intros u e Hu; simpl in Hu; by rewrite lookup_empty in Hu).
  revert Hinit. generalize init. intros st0. revert st0 out.
  induction evs as [|[now e] evs IH]; intros st0 out Hinv Hrun; simpl in Hrun.
  - by injection Hrun as <- _.
  - destruct (deliver now e st0) as [st1 out1|] eqn:Hd; [|done].
    destruct (run evs st1) as [st2 out2|] eqn:Hr; [|done]. injection Hrun as <- _.
    eapply IH; [|exact Hr]. by eapply (step_counts_positive now e (run_timers now st0)).
Qed.

(** X6. The limiter counts in fixed windows, so a burst across a window edge
    gets more than five messages through, but never more than nine: in every
    state the server can reach, of the calls one user makes within any span
    of 1000 ms at most nine are let through; and nine is reached, by four
    calls at the end of a window and five at the start of the next. *)
Theorem burst_lets_at_most_nine_through evs st out u a ts :
  run evs init = Ok st out →
  Forall (λ t, a ≤ t < a + 1000) ts →
  (accepted_count (rate_calls u ts (messageRateLimits st)) ≤ 9)%nat ∧
  accepted_count
    (rate_calls u [999; 999; 999; 999; 1000; 1000; 1000; 1000; 1000]
       (isRateLimited ∅ u 0).2) = 9%nat.
Proof.
  intros Hrun Hts. split.
  - pose proof (run_counts_positive evs st out Hrun) as Hpos.
    destruct (messageRateLimits st !! u) as [[k s]|] eqn:Hu.
    + pose proof (Hpos u _ Hu) as Hk. simpl in Hk.
      pose proof (rate_calls_span _ u k s a ts Hu ltac:(lia) Hts). lia.
    + destruct Hts as [|t ts Ht Hts]; [unfold accepted_count; simpl; lia|].
      simpl. rewrite isRateLimited_opens by (unfold window_over; by rewrite Hu).
      simpl. rewrite accepted_count_cons.
      pose proof (rate_calls_inside (<[u := RateEntry 1 t]> (messageRateLimits st)) u 1 t ts)
        as Hrest.
      rewrite lookup_insert_eq in Hrest. specialize (Hrest eq_refl ltac:(lia)).
      assert (Forall (λ t', t' - t < 1000) ts) as Hts'
        by (eapply Forall_impl; [exact Hts|]; simpl; intros; lia).
      specialize (Hrest Hts'). change (Z.to_nat (5 - 1)) with 4%nat in Hrest. lia.
  - cbn [rate_calls].
    rewrite (isRateLimited_opens ∅ u 0) by (unfold window_over; by rewrite lookup_empty).
    cbn [fst snd].
    do 4 (erewrite (isRateLimited_inside (<[u:=_]> _) u 999);
            [|apply lookup_insert_eq|lia];
          cbn [fst snd]; rewrite ?insert_insert_eq).
    rewrite (isRateLimited_opens (<[u:=_]> _) u 1000)
      by (unfold window_over; rewrite lookup_insert_eq; cbn [timestamp]; lia).
    cbn [fst snd]. rewrite ?insert_insert_eq.
    do 4 (erewrite (isRateLimited_inside (<[u:=_]> _) u 1000);
            [|apply lookup_insert_eq|lia];
          cbn [fst snd]; rewrite ?insert_insert_eq).
    vm_compute. reflexivity.
Qed.

Lemma burst_lets_at_most_nine_through_witness :
  let ts : list Z := [10; 20; 30; 40; 50; 60; 70] in
  (accepted_count (rate_calls (JStr "u1") ts (messageRateLimits cached_sender)) ≤ 9)%nat.
Proof.
  intros ts.
  eapply (burst_lets_at_most_nine_through
            [(0, Connection "s1"); (1, Authenticate "s1" (Some (JStr "u1")));
             (2, StoreReply 0 (Found ann)); (3, JoinChat "s1" (JStr "r1"))]
            cached_sender [SocketBroadcast "s1" (UserOnline (JStr "s1"))]
            (JStr "u1") 10 [10; 20; 30; 40; 50; 60; 70]).
  - vm_compute. reflexivity.
  - repeat constructor; lia.
Defined.

End Burst.

(** ** The lifetime of cache entries *)

Section CacheLifetime.
Implicit Types (st : state) (u : jsval).

(** The one handler step that writes the cache or sets a timer. *)
Lemma step_cache_timers now e st st' out :
  step now e st = Ok st' out →
  (userCache st' = userCache st ∧ timers st' = timers st) ∨
  (∃ u p, userCache st' = <[u := p]> (userCache st) ∧
          timers st' = timers st ++ [(now + cache_ttl, u)]).
Proof.
  intros Hstep. destruct e; simpl in Hstep.
  - injection Hstep as <- _. by left.
  - unfold on_authenticate in Hstep. destruct payload as [userId|]; [|done].
    destruct (truthy userId); [|injection Hstep as <- _; by left].
    destruct (getUserDetails_cached _ _); injection Hstep as <- _; by left.
  - unfold on_joinChat in Hstep. destruct (addUserToRoom _ _ _); [|done].
    injection Hstep as <- _. by left.
  - injection Hstep as <- _. by left.
  - unfold on_typing in Hstep. destruct payload as [[]|]; [|done].
    injection Hstep as <- _. by left.
  - unfold on_stopTyping in Hstep. destruct payload as [[]|]; [|done].
    injection Hstep as <- _. by left.
  - unfold on_sendMessage in Hstep. destruct payload as [[c x]|]; [|done].
    destruct (negb (truthy c) || negb (truthy x)); [injection Hstep as <- _; by left|].
    destruct (isRateLimited _ _ _) as [[] ?]; [injection Hstep as <- _; by left|].
    destruct (getUserDetails_cached _ _); injection Hstep as <- _; by left.
  - unfold on_markMessagesRead in Hstep. destruct payload; [|done].
    injection Hstep as <- _. by left.
  - injection Hstep as <- _. by left.
  - injection Hstep as <- _. by left.
  - unfold on_disconnect in Hstep. injection Hstep as <- _. left. simpl.
    match goal with |- context [userRooms ?s !! ?k] => destruct (userRooms s !! k) as [rs|] end;
      [|by destruct (truthy _)].
    match goal with |- context [foldr (socket_leave ?a) ?s ?l] =>
      destruct (foldr_socket_leave_fields a l s) as (_ & _ & _ & _ & -> & -> & _) end.
    by destruct (truthy _).
  - unfold on_storeReply in Hstep.
    destruct (pending st !! q) as [k|]; [|injection Hstep as <- _; by left].
    destruct r as [user| |]; simpl in Hstep.
    + right. destruct k; injection Hstep as <- _; by eexists _, _.
    + left. destruct k; by injection Hstep as <- _.
    + left. destruct k; by injection Hstep as <- _.
Qed.

Lemma run_timers_evictions_pending T now st :
  evictions_pending T st → evictions_pending T (run_timers now st).
Proof.
  intros [Hcached Hdue]. split; simpl.
  - intros u Hu. rewrite foldr_delete_lookup in Hu. case_decide as Hin; [by apply is_Some_None in Hu|].
    destruct (Hcached u Hu) as [d Hd]. exists d. apply list_elem_of_filter. split; [|done].
    intros Hle. apply Hin. apply list_elem_of_fmap. exists (d, u). split; [done|].
    by apply list_elem_of_filter.
  - intros d u [_ Hin]%list_elem_of_filter. by apply (Hdue d u).
Qed.

Lemma step_evictions_pending T now e st st' out :
  now ≤ T → evictions_pending T st → step now e st = Ok st' out → evictions_pending T st'.
Proof.
  intros Hnow [Hcached Hdue] Hstep.
  destruct (step_cache_timers now e st st' out Hstep) as [[Hc Ht]|(u & p & Hc & Ht)];
    split; rewrite ?Hc, ?Ht; try done.
  - intros u' Hu'. destruct (decide (u = u')) as [<-|Hne].
    + exists (now + cache_ttl). apply elem_of_app. right. by left.
    + rewrite lookup_insert_ne in Hu' by done. destruct (Hcached u' Hu') as [d Hd].
      exists d. apply elem_of_app. by left.
  - intros d u' [Hin|Hin]%elem_of_app; [by apply (Hdue d u')|].
    apply list_elem_of_singleton in Hin. injection Hin as -> _. lia.
Qed.

(** X7. No profile stays cached for good.  In every state the server can
    reach, every cached profile has an eviction timer pending, none of them
    due later than 300 s after the latest event handled; so once 300 s have
    passed since the latest event, the cache is empty. *)
Theorem cache_is_empty_after_ttl_of_silence evs st out T :
  run evs init = Ok st out →
  Forall (λ te, te.1 ≤ T) evs →
  evictions_pending T st ∧
  ∀ t, T + cache_ttl ≤ t → userCache (run_timers t st) = ∅.
Proof.
  intros Hrun Hevs.
  assert (evictions_pending T st) as Hinv.
  { assert (evictions_pending T init) as Hinit.
    { split; simpl.
      - intros u [p Hp]. by rewrite lookup_empty in Hp.
      - intros d u Hin. by apply elem_of_nil in Hin. }
    revert Hinit Hrun. generalize init. intros st0 Hinit. revert st0 out Hinit.
    induction Hevs as [|[now e] evs Hnow _ IH]; intros st0 out Hinit Hrun; simpl in Hrun.
    - by injection Hrun as <- _.
    - destruct (deliver now e st0) as [st1 out1|] eqn:Hd; [|done].
      destruct (run evs st1) as [st2 out2|] eqn:Hr; [|done]. injection Hrun as <- _.
      eapply IH; [|exact Hr].
      eapply (step_evictions_pending T now e (run_timers now st0)); [done| |exact Hd].
      by apply run_timers_evictions_pending. }
  split; [done|]. intros t Ht. destruct Hinv as [Hcached Hdue].
  apply map_eq. intros u. rewrite lookup_empty. simpl. rewrite foldr_delete_lookup.
  case_decide as Hin; [done|].
  destruct (userCache st !! u) as [p|] eqn:Hp; [|done]. exfalso.
  destruct (Hcached u) as [d Hd]; [by eexists|]. apply Hin.
  apply list_elem_of_fmap. exists (d, u). split; [done|].
  apply list_elem_of_filter. split; [|done]. simpl. specialize (Hdue d u Hd). lia.
Qed.

Lemma cache_is_empty_after_ttl_of_silence_witness :
  evictions_pending 3 cached_sender ∧
  ∀ t, 3 + cache_ttl ≤ t → userCache (run_timers t cached_sender) = ∅.
Proof.
  apply (cache_is_empty_after_ttl_of_silence
           [(0, Connection "s1"); (1, Authenticate "s1" (Some (JStr "u1")));
            (2, StoreReply 0 (Found ann)); (3, JoinChat "s1" (JStr "r1"))]
           cached_sender [SocketBroadcast "s1" (UserOnline (JStr "s1"))] 3).
  - vm_compute. reflexivity.
  - repeat constructor; simpl; lia.
Defined.

End CacheLifetime.

(** * The HTTP side of messaging *)

(** ** The [sendMessage] controller *)

Section Controller.
Implicit Types (chatId senderId : jsval) (content : body_value).

Lemma js_gt_false (x : option Z) n : js_gt x n = false ↔ ∀ k, x = Some k → k ≤ n.
Proof.
  destruct x as [k|]; simpl.
  - rewrite Z.ltb_ge. split; [by intros ? ? [= <-]|by intros H; apply H].
  - split; [by intros|done].
Qed.

Lemma js_lt_false (x : option Z) n : js_lt x n = false ↔ ∀ k, x = Some k → n ≤ k.
Proof.
  destruct x as [k|]; simpl.
  - rewrite Z.ltb_ge. split; [by intros ? ? [= <-]|by intros H; apply H].
  - split; [by intros|done].
Qed.

(** What the two length tests of the controller let through. *)
Lemma length_tests content :
  body_truthy content = true →
  (js_gt (body_length content) 500 = false ∧ js_lt (body_length content) 1 = false) ↔
  ((∀ str, content = Scalar (JStr str) → utf16_length str ≤ 500) ∧
   (∀ items, content = ArrayOf items → (1 ≤ items ≤ 500)%nat) ∧
   (∀ n, content = ObjectWith (Some n) → 1 ≤ n ≤ 500)).
Proof.
  intros Hx. rewrite js_gt_false, js_lt_false. split.
  - intros [Hgt Hlt]. split; [|split].
    + intros str ->. by apply Hgt.
    + intros items ->. specialize (Hgt _ eq_refl). specialize (Hlt _ eq_refl). lia.
    + intros n ->. specialize (Hgt _ eq_refl). specialize (Hlt _ eq_refl). lia.
  - intros (Hs & Ha & Ho). destruct content as [v|items|[n|]|]; simpl.
    + split.
      * intros k Hk. destruct v; try done. injection Hk as <-. by apply Hs.
      * apply js_lt_false. by apply truthy_length.
    + specialize (Ha _ eq_refl). split; intros k [= <-]; lia.
    + specialize (Ho _ eq_refl). split; intros k [= <-]; lia.
    + done.
    + done.
Qed.

(** X8. The controller answers with a JSON body exactly when the content
    and the chat id are truthy, the content passes the two length tests, the
    sender and the chat exist, the message could be created and the socket
    server is initialised.  The length tests are passed by a string of at
    most 500 UTF-16 code units, by an array of 1 to 500 items, by an object
    whose [length] converts to a number from 1 to 500 or to [NaN] (not by
    one whose [length] cannot be converted: the test throws), and by a number
    or [true], which have no length.  The answer is then 201 with the stored
    message, after one [Message.create] with the content as it came and one
    [receiveMessage] to the room with that same payload, whose [status] is
    ["sent"]. *)
Theorem sendMessage_answers_201_exactly_when body chatId senderId sender chat created io_ready :
  let ok content s m :=
    body = Some content ∧ body_truthy content = true ∧ truthy chatId = true ∧
    (∀ str, content = Scalar (JStr str) → utf16_length str ≤ 500) ∧
    (∀ items, content = ArrayOf items → (1 ≤ items ≤ 500)%nat) ∧
    (∀ n, content = ObjectWith (Some n) → 1 ≤ n ≤ 500) ∧
    content ≠ ObjectUnconvertible ∧
    sender = Doc s ∧ (∃ ch, chat = Doc ch) ∧ created = Doc m ∧ io_ready = true in
  (∀ code b, (sendMessage body chatId senderId sender chat created io_ready).1 = Json code b →
     ∃ content s m, ok content s m) ∧
  (∀ content s m, ok content s m →
     sendMessage body chatId senderId sender chat created io_ready
       = (Json 201 (sent_payload chatId s m),
          [PersistMessage (MessageIn chatId senderId content);
           IoTo chatId (ReceiveMessage (sent_payload chatId s m))]) ∧
     rm_status (sent_payload chatId s m) = Some "sent").
Proof.
  intros ok. split.
  - intros code b. unfold sendMessage. destruct body as [content|]; [|done].
    destruct (body_truthy content) eqn:Hx; [|done].
    destruct (truthy chatId) eqn:Hc; [|done]. simpl.
    destruct (length_unconvertible content) eqn:Hun; [done|].
    destruct (js_gt (body_length content) 500) eqn:Hgt; [done|].
    destruct (js_lt (body_length content) 1) eqn:Hlt; [done|].
    destruct sender as [s| |]; destruct chat as [ch| |]; try done.
    destruct created as [m| |]; try done. destruct io_ready; [|done].
    intros _. exists content, s, m.
    destruct (proj1 (length_tests content Hx) (conj Hgt Hlt)) as (Hs & Ha & Ho).
    repeat split; try done; try (by apply Ha); try (by apply Ho);
      [by intros ->|by eexists].
  - intros content s m (-> & Hx & Hc & Hs & Ha & Ho & Hun & -> & [ch ->] & -> & ->).
    split; [|done].
    destruct (proj2 (length_tests content Hx) (conj Hs (conj Ha Ho))) as [Hgt Hlt].
    assert (length_unconvertible content = false) as Hun' by by destruct content.
    unfold sendMessage. by rewrite Hx, Hc, Hun', Hgt, Hlt.
Qed.

(** X9. The refusal "Message content must be at least 1 character long" is
    never given for a string, nor for any other scalar: content that gets past
    the first test is truthy, and a truthy string has a character.  It is
    given exactly for an empty array and for an object whose [length]
    converts to a number below 1, the chat id being truthy. *)
Theorem sendMessage_too_short_exactly_when body chatId senderId sender chat created io_ready :
  let too_short := NextAppError "Message content must be at least 1 character long" 400 in
  let r := sendMessage body chatId senderId sender chat created io_ready in
  (r.1 = too_short ↔
     truthy chatId = true ∧
     (body = Some (ArrayOf 0) ∨ ∃ n, body = Some (ObjectWith (Some n)) ∧ n < 1)) ∧
  (∀ v, body = Some (Scalar v) → r.1 ≠ too_short).
Proof.
  intros too_short r. subst too_short r.
  assert (∀ v, body = Some (Scalar v) →
            (sendMessage body chatId senderId sender chat created io_ready).1
              ≠ NextAppError "Message content must be at least 1 character long" 400) as Hscalar.
  { intros v ->. unfold sendMessage. simpl.
    destruct (truthy v) eqn:Hx; [|done].
    destruct (truthy chatId) eqn:Hc; [|done]. simpl.
    destruct (js_gt (js_length v) 500); [done|].
    rewrite (truthy_length v Hx).
    destruct sender as [s| |]; destruct chat as [ch| |]; try done.
    destruct created as [m| |]; try done. by destruct io_ready. }
  split; [|exact Hscalar]. split.
  - destruct body as [[v|items|[n|]|]|]; [by intros ?%(Hscalar v)|..|done];
      unfold sendMessage; simpl; (destruct (truthy chatId) eqn:Hc; [|done]); simpl;
      [..|done].
    + destruct (500 <? Z.of_nat items) eqn:Hgt; [done|].
      destruct (Z.of_nat items <? 1) eqn:Hlt.
      * intros _. split; [done|]. left. apply Z.ltb_lt in Hlt. do 2 f_equal. lia.
      * destruct sender as [s| |]; destruct chat as [ch| |]; try done.
        destruct created as [m| |]; try done. by destruct io_ready.
    + destruct (500 <? n) eqn:Hgt; [done|].
      destruct (n <? 1) eqn:Hlt.
      * intros _. split; [done|]. right. exists n. split; [done|]. by apply Z.ltb_lt.
      * destruct sender as [s| |]; destruct chat as [ch| |]; try done.
        destruct created as [m| |]; try done. by destruct io_ready.
    + destruct sender as [s| |]; destruct chat as [ch| |]; try done.
      destruct created as [m| |]; try done. by destruct io_ready.
  - intros [Hc [->|(n & -> & Hn)]]; unfold sendMessage; simpl; rewrite Hc; simpl; [done|].
    rewrite (proj2 (Z.ltb_ge _ _)) by lia. by rewrite (proj2 (Z.ltb_lt _ _)) by lia.
Qed.

(** X10. The controller creates and emits nothing it has refused.  When it
    ends with an [AppError] (which is a 400 or a 404) it has called neither
    [Message.create] nor the transport; a [Message.create] is made only for a
    request that passed validation with sender and chat found, with the
    content as it came; and a [receiveMessage] is emitted only after the
    message was created, to the chat of the request, along with a 201 that
    carries the same payload. *)
Theorem sendMessage_refusals_leave_no_trace body chatId senderId sender chat created io_ready :
  let r := sendMessage body chatId senderId sender chat created io_ready in
  (∀ msg code, r.1 = NextAppError msg code → r.2 = [] ∧ (code = 400 ∨ code = 404)) ∧
  (∀ m, PersistMessage m ∈ r.2 →
     ∃ content s ch, body = Some content ∧ body_truthy content = true ∧ truthy chatId = true ∧
       js_gt (body_length content) 500 = false ∧ js_lt (body_length content) 1 = false ∧
       sender = Doc s ∧ chat = Doc ch ∧ m = MessageIn chatId senderId content) ∧
  (∀ room e, IoTo room e ∈ r.2 →
     ∃ s m, created = Doc m ∧ room = chatId ∧ e = ReceiveMessage (sent_payload chatId s m) ∧
       r.1 = Json 201 (sent_payload chatId s m) ∧
       ∃ stored, r.2 = [PersistMessage stored; IoTo room e]).
Proof.
  intros r. subst r. unfold sendMessage.
  assert (∀ (res : http_result) (P : message_doc_in → Prop) (Q : jsval → server_event → Prop),
            (∀ msg code, res = NextAppError msg code → code = 400 ∨ code = 404) →
            (∀ msg code, (res, @nil action).1 = NextAppError msg code →
               (res, @nil action).2 = [] ∧ (code = 400 ∨ code = 404)) ∧
            (∀ m, PersistMessage m ∈ (res, @nil action).2 → P m) ∧
            (∀ room e, IoTo room e ∈ (res, @nil action).2 → Q room e)) as Hnone.
  { intros res P Q Hcode. simpl. split; [intros msg code Heq; split; [done|by eapply Hcode]|].
    split; [intros m Hm|intros room e Hm]; by apply elem_of_nil in Hm. }
  destruct body as [content|]; [|by apply Hnone].
  destruct (body_truthy content) eqn:Hx; [|apply Hnone; intros msg code [= <- <-]; by left].
  destruct (truthy chatId) eqn:Hc; [|apply Hnone; intros msg code [= <- <-]; by left].
  simpl negb. simpl orb. cbv iota.
  destruct (length_unconvertible content); [by apply Hnone|].
  destruct (js_gt (body_length content) 500) eqn:Hgt;
    [apply Hnone; intros msg code [= <- <-]; by left|].
  destruct (js_lt (body_length content) 1) eqn:Hlt;
    [apply Hnone; intros msg code [= <- <-]; by left|].
  destruct sender as [s| |]; destruct chat as [ch| |];
    try (apply Hnone; intros msg code Heq;
         first [discriminate Heq|injection Heq as <- <-; by right]).
  assert (∀ m l, PersistMessage m ∈ PersistMessage (MessageIn chatId senderId content) :: l →
            (∀ m', PersistMessage m' ∉ l) →
            ∃ content0 s0 ch0, Some content = Some content0 ∧
              body_truthy content0 = true ∧ true = true ∧
              js_gt (body_length content0) 500 = false ∧
              js_lt (body_length content0) 1 = false ∧
              Doc s = Doc s0 ∧ Doc ch = Doc ch0 ∧ m = MessageIn chatId senderId content0) as Hp.
  { intros m l [Heq|Hin]%elem_of_cons Hl; [|by apply Hl in Hin].
    injection Heq as ->. by exists content, s, ch. }
  destruct created as [m| |]; [destruct io_ready|..]; simpl.
  - split; [done|]. split.
    + intros m0 Hm0. apply (Hp m0 _ Hm0). intros m' Hm'.
      by apply list_elem_of_singleton in Hm'.
    + intros room e [Heq|Hin]%elem_of_cons; [done|].
      apply list_elem_of_singleton in Hin. injection Hin as -> ->.
      exists s, m. repeat split. by eexists.
  - split; [done|]. split.
    + intros m0 Hm0. apply (Hp m0 _ Hm0). intros m' Hm'. by apply elem_of_nil in Hm'.
    + intros room e [Heq|Hin]%elem_of_cons; [done|by apply elem_of_nil in Hin].
  - split; [done|]. split.
    + intros m0 Hm0. apply (Hp m0 _ Hm0). intros m' Hm'. by apply elem_of_nil in Hm'.
    + intros room e [Heq|Hin]%elem_of_cons; [done|by apply elem_of_nil in Hin].
  - split; [done|]. split.
    + intros m0 Hm0. apply (Hp m0 _ Hm0). intros m' Hm'. by apply elem_of_nil in Hm'.
    + intros room e [Heq|Hin]%elem_of_cons; [done|by apply elem_of_nil in Hin].
Qed.

End Controller.

(** ** Authentication *)

Section Authentication.
Implicit Types (token : jsval) (u : auth_user).

(** X11. The middleware lets a request through exactly when there is a
    token, it verifies, its [exp] claim (if set) is not in the past, the user
    of the token exists, the password was not changed after the token was
    issued (judged in whole seconds, when both times are known), and the
    account is not inactive; [req.id] is then the [_id] of that user.  Every
    refusal of its own is a 401. *)
Theorem isAuthenticated_grants_exactly_when now token verify user :
  (∀ u id, isAuthenticated now token verify user = Granted u id ↔
     truthy token = true ∧
     ∃ userId exp iat, verify = Decoded userId exp iat ∧
       (∀ e, exp = Some e → e ≠ 0 → now / 1000 ≤ e) ∧
       user = Doc u ∧ id = au_id u ∧
       (∀ changed i, au_passwordChangedAt u = Some changed → iat = Some i → i ≠ 0 →
          Z.quot changed 1000 ≤ i) ∧
       au_status u ≠ JStr "inactive") ∧
  (∀ msg code, isAuthenticated now token verify user = Refused msg code → code = 401).
Proof.
  split.
  - intros u id. unfold isAuthenticated. destruct (truthy token) eqn:Ht; simpl.
    2: { split; [done|]. by intros [? _]. }
    destruct verify as [userId exp iat|name].
    2: { split; [|by intros (_ & ? & ? & ? & ? & _)].
         by destruct (String.eqb name "JsonWebTokenError"),
                     (String.eqb name "TokenExpiredError"). }
    destruct (claim_set exp && (default 0 exp <? now / 1000)) eqn:Hexp.
    { split; [done|]. intros (_ & ? & e' & ? & [= -> -> ->] & Hok & _).
      apply andb_true_iff in Hexp as [Hset Hlt]. destruct e' as [e|]; [|done].
      simpl in Hset, Hlt. apply negb_true_iff, Z.eqb_neq in Hset. apply Z.ltb_lt in Hlt.
      specialize (Hok e eq_refl Hset). lia. }
    assert (∀ e, exp = Some e → e ≠ 0 → now / 1000 ≤ e) as Hexp'.
    { intros e -> He. apply andb_false_iff in Hexp as [Hset|Hlt]; simpl in *.
      - apply negb_false_iff, Z.eqb_eq in Hset. done.
      - by apply Z.ltb_ge in Hlt. }
    destruct user as [u0| |].
    2: { split; [done|]. by intros (_ & ? & ? & ? & _ & _ & ? & _). }
    2: { split; [done|]. by intros (_ & ? & ? & ? & _ & _ & ? & _). }
    destruct (match au_passwordChangedAt u0 with
              | Some changed => claim_set iat && (default 0 iat <? changed `quot` 1000)
              | None => false
              end) eqn:Hpw.
    { split; [done|]. intros (_ & ? & ? & i' & [= -> -> ->] & _ & [= <-] & _ & Hok & _).
      destruct (au_passwordChangedAt u0) as [changed|]; [|done].
      apply andb_true_iff in Hpw as [Hset Hlt]. destruct i' as [i|]; [|done].
      simpl in Hset, Hlt. apply negb_true_iff, Z.eqb_neq in Hset. apply Z.ltb_lt in Hlt.
      specialize (Hok changed i eq_refl eq_refl Hset). lia. }
    assert (∀ changed i, au_passwordChangedAt u0 = Some changed → iat = Some i → i ≠ 0 →
              changed `quot` 1000 ≤ i) as Hpw'.
    { intros changed i Hch -> Hi. rewrite Hch in Hpw.
      apply andb_false_iff in Hpw as [Hset|Hlt]; simpl in *.
      - apply negb_false_iff, Z.eqb_eq in Hset. done.
      - by apply Z.ltb_ge in Hlt. }
    case_bool_decide as Hst.
    { split; [done|]. by intros (_ & ? & ? & ? & _ & _ & [= <-] & _ & _ & ?). }
    split.
    + intros [= <- <-]. split; [done|]. by exists userId, exp, iat.
    + by intros (_ & ? & ? & ? & _ & _ & [= <-] & -> & _).
  - intros msg code. unfold isAuthenticated.
    repeat (case_match; try done); by intros [= _ <-].
Qed.

End Authentication.

(** ** Refusals on their way to the client *)

Section Refusals.

Lemma global_error_handler_AppError development message statusCode errorCode stack :
  statusCode ≠ 0 → message ≠ "" →
  global_error_handler development false (AppError message statusCode errorCode stack)
    = Some (statusCode,
            ErrorBody "error" message (if development then Some stack else None)).
Proof.
  intros Hcode Hmsg. unfold global_error_handler, AppError, number_or. simpl.
  apply Z.eqb_neq in Hcode. rewrite Hcode. apply String.eqb_neq in Hmsg. by rewrite Hmsg.
Qed.

(** X12. A refusal made with [AppError] reaches the client with its own
    status code and message: every refusal of [isAuthenticated] is answered
    401 and every refusal of the [sendMessage] controller 400 or 404, with
    the message the code gave.  The body's [status] is ["error"] for all of
    them, though the [AppError] itself says ["fail"]; the stack is sent in
    development only. *)
Theorem refusals_reach_the_client development stack :
  (∀ now token verify user msg code,
     isAuthenticated now token verify user = Refused msg code →
     global_error_handler development false (AppError msg code None stack)
       = Some (401, ErrorBody "error" msg (if development then Some stack else None)) ∧
     th_status (AppError msg code None stack) = Some "fail") ∧
  (∀ body chatId senderId sender chat created io_ready msg code,
     (sendMessage body chatId senderId sender chat created io_ready).1 = NextAppError msg code →
     global_error_handler development false (AppError msg code None stack)
       = Some (code, ErrorBody "error" msg (if development then Some stack else None)) ∧
     (code = 400 ∨ code = 404) ∧
     th_status (AppError msg code None stack) = Some "fail").
Proof.
  split.
  - intros now token verify user msg code. unfold isAuthenticated.
    repeat (case_match; try done); intros [= <- <-];
      (split; [by apply global_error_handler_AppError|done]).
  - intros body chatId senderId sender chat created io_ready msg code. unfold sendMessage.
    repeat (case_match; try done); intros [= <- <-];
      (split; [by apply global_error_handler_AppError|]);
      (split; [first [by left|by right]|done]).
Qed.

End Refusals.

(** ** Paging and read receipts *)

Section Paging.

Lemma ceil_div_spec (a b : Z) : 0 < b → ceil_div a b = (a + b - 1) / b.
Proof.
  intros Hb. unfold ceil_div.
  pose proof (Z.div_mod (- a) b ltac:(lia)) as H1.
  pose proof (Z.mod_pos_bound (- a) b Hb) as H2.
  apply Z.div_unique with (r := (b - 1) - (- a) mod b); [lia|nia].
Qed.

(** An integer below [2^53] in size is a double. *)
Lemma to_double_exact n : Z.abs n < 2 ^ 53 → to_double n = n.
Proof. intros Hn. unfold to_double. by rewrite (proj2 (Z.ltb_lt _ _) Hn). Qed.

(** Rounding does not take a number below [2^53] that was not below it. *)
Lemma to_double_large n : 2 ^ 53 ≤ n → 2 ^ 53 ≤ to_double n.
Proof.
  intros Hn. unfold to_double.
  assert (0 < 2 ^ 53) as Hpos by done.
  rewrite (Z.abs_eq n) by lia. rewrite (proj2 (Z.ltb_ge _ _) Hn).
  rewrite (Z.sgn_pos n) by lia. cbv zeta.
  assert (53 ≤ Z.log2 n) as Hlog.
  { rewrite <- (Z.log2_pow2 53) by done. by apply Z.log2_le_mono. }
  set (e := Z.log2 n - 52).
  assert (2 ^ Z.log2 n = 2 ^ 52 * 2 ^ e) as Hsplit.
  { rewrite <- Z.pow_add_r by lia. f_equal. lia. }
  assert (2 ^ 1 ≤ 2 ^ e) as He by (apply Z.pow_le_mono_r; lia).
  assert (2 ^ 52 ≤ n / 2 ^ e) as Hq.
  { apply Z.div_le_lower_bound; [lia|].
    destruct (Z.log2_spec n) as [Hlo _]; lia. }
  assert (2 ^ 52 * 2 ^ 1 = 2 ^ 53) as H53 by done.
  destruct ((n mod 2 ^ e <? 2 ^ (e - 1)) || ((n mod 2 ^ e =? 2 ^ (e - 1)) && Z.even (n / 2 ^ e)));
    nia.
Qed.

(** Beyond [2^53] the [skip] of the code is not the exact product: it is the
    double next to it. *)
Lemma getMessages_skip_is_rounded :
  94906267 * 94906267 = 9007199515875289 ∧
  fq_skip (getMessages_query (JStr "c1") (Some 94906268) (Some 94906267)) = 9007199515875288.
Proof. split; reflexivity. Qed.

(** X13. The pages of [getMessages] cover the messages of a chat without gap
    or overlap.  With a page size of at least 1 and [totalMessages] messages,
    at most [2^53] of them, the message at each position below
    [totalMessages] (in [createdAt] order) falls in the window
    [skip, skip + limit) of exactly one page, and that page is between 1 and
    the [totalPages] of the answer.  The [skip] of a page is the rounded
    product the code computes: where it is not exact it is beyond every
    message. *)
Theorem getMessages_pages_partition {M : Type} chatId page limit (messages : list M) total i :
  1 ≤ limit → 0 ≤ i < total → total ≤ 2 ^ 53 →
  ∃ body, getMessages chatId page (Some limit) (Some messages) (Some total)
            = ReplyJson 200 body ∧
    mb_totalMessages body = total ∧
    ∃ p, 1 ≤ p ≤ mb_totalPages body ∧
      (∀ p', 1 ≤ p' →
         let q := getMessages_query chatId (Some p') (Some limit) in
         (fq_skip q ≤ i < fq_skip q + fq_limit q) ↔ p' = p).
Proof.
  intros Hlimit Hi Htotal. eexists. split; [done|]. cbn [mb_totalMessages mb_totalPages].
  split; [done|].
  assert (number_or (Some limit) 20 = limit) as ->.
  { unfold number_or. by rewrite (proj2 (Z.eqb_neq _ _)) by lia. }
  rewrite ceil_div_spec by lia.
  pose proof (Z.div_mod i limit ltac:(lia)) as Hdm.
  pose proof (Z.mod_pos_bound i limit ltac:(lia)) as Hmod.
  pose proof (Z.div_pos i limit ltac:(lia) ltac:(lia)) as Hdiv.
  exists (i / limit + 1). split.
  - split; [lia|].
    assert (i / limit ≤ (total - 1) / limit) by (apply Z.div_le_mono; lia).
    replace (total + limit - 1) with ((total - 1) + 1 * limit) by lia.
    rewrite Z.div_add by lia. lia.
  - intros p' Hp'. unfold getMessages_query. cbn [fq_skip fq_limit]. cbn zeta.
    assert (number_or (Some p') 1 = p') as ->.
    { unfold number_or. by rewrite (proj2 (Z.eqb_neq _ _)) by lia. }
    assert (number_or (Some limit) 20 = limit) as ->.
    { unfold number_or. by rewrite (proj2 (Z.eqb_neq _ _)) by lia. }
    destruct (Z_lt_le_dec (p' - 1) (2 ^ 53)) as [Hsmall|Hbig].
    + rewrite (to_double_exact (p' - 1)) by lia.
      destruct (Z_lt_le_dec ((p' - 1) * limit) (2 ^ 53)) as [Hsmall'|Hbig'].
      * rewrite to_double_exact by nia. split.
        -- intros [Hlo Hhi].
           assert (i / limit = p' - 1); [|lia].
           symmetry. apply Z.div_unique with (r := i - (p' - 1) * limit); lia.
        -- intros ->. nia.
      * pose proof (to_double_large _ Hbig'). split; [lia|]. intros ->. nia.
    + pose proof (to_double_large _ Hbig) as Hd.
      assert (2 ^ 53 ≤ to_double (p' - 1) * limit) as Hbig' by nia.
      pose proof (to_double_large _ Hbig'). split; [lia|]. intros ->. nia.
Qed.

Lemma getMessages_pages_partition_witness :
  ∃ body, getMessages (JStr "c1") None (Some 20) (Some ["a"; "b"]) (Some 45)
            = ReplyJson 200 body ∧
    mb_totalMessages body = 45 ∧
    ∃ p, 1 ≤ p ≤ mb_totalPages body ∧
      (∀ p', 1 ≤ p' →
         let q := getMessages_query (JStr "c1") (Some p') (Some 20) in
         (fq_skip q ≤ 44 < fq_skip q + fq_limit q) ↔ p' = p).
Proof.
  apply (getMessages_pages_partition (JStr "c1") None 20 ["a"; "b"] 45 44); lia.
Defined.

(** X14. A read receipt goes out only once the messages are marked:
    [markMessagesAsRead] emits [messagesRead] exactly when the update of the
    store has succeeded (and sockets are up), after that update, for the same
    chat and user; the event is the one the socket handler
    ["markMessagesRead"] emits for a connection of that user, which makes no
    update at all. *)
Theorem read_receipt_follows_update chatId user updated io_ready :
  let r := markMessagesAsRead chatId user updated io_ready in
  (∀ a, Transport a ∈ r.2 →
     ∃ userId n, user = Some userId ∧ updated = Some n ∧ io_ready = true ∧
       a = IoTo chatId (MessagesRead chatId userId) ∧
       r = (ReplyJson 200 (pretty n +:+ " messages marked as read"),
            [UpdateToRead chatId userId; Transport a]) ∧
       ∀ now sid st, resolve st sid = userId →
         step now (MarkMessagesRead sid (Some chatId)) st = Ok st [a]) ∧
  (∀ code b, r.1 = ReplyJson code b →
     ∃ userId, user = Some userId ∧
       Transport (IoTo chatId (MessagesRead chatId userId)) ∈ r.2).
Proof.
  intros r. subst r. unfold markMessagesAsRead.
  destruct user as [userId|]; [|split; [intros a Ha; by apply elem_of_nil in Ha|done]].
  destruct updated as [n|].
  2: { split; [|done]. intros a [Ha|Ha]%elem_of_cons; [done|by apply elem_of_nil in Ha]. }
  destruct io_ready.
  2: { split; [|done]. intros a [Ha|Ha]%elem_of_cons; [done|by apply elem_of_nil in Ha]. }
  split.
  - intros a [Ha|Ha]%elem_of_cons; [done|].
    apply list_elem_of_singleton in Ha. injection Ha as ->.
    exists userId, n. repeat split. intros now sid st Hres. simpl.
    unfold on_markMessagesRead. by rewrite Hres.
  - intros code b _. exists userId. split; [done|]. simpl. right. by left.
Qed.

End Paging.

(** ** The order of broadcasts *)

Section Order.
Implicit Types (st : state) (sid : string).

Lemma run_timers_fields now st :
  onlineUsers (run_timers now st) = onlineUsers st ∧
  userRooms (run_timers now st) = userRooms st ∧
  messageRateLimits (run_timers now st) = messageRateLimits st ∧
  socketIdToUserId (run_timers now st) = socketIdToUserId st ∧
  pending (run_timers now st) = pending st ∧
  next_query (run_timers now st) = next_query st ∧
  adapter (run_timers now st) = adapter st.
Proof. done. Qed.




End Order.

(** ** More on connections and rooms *)

Section Connections.
Implicit Types (st : state) (sid : string) (u c : jsval).

(** X16. The disconnect of one connection leaves the others alone: for a
    connection [b] whose identity is not the one the disconnecting
    connection resolves to (connection ids not being used as user ids), the
    binding of [b], the presence entries under the identity and under the id
    of [b], the rooms recorded for [b] and its subscriptions in the
    transport are unchanged. *)
Theorem disconnect_leaves_other_identities_alone now sid b st :
  sid ≠ "" → b ≠ sid →
  resolve st b ≠ resolve st sid → resolve st b ≠ JStr sid → resolve st sid ≠ JStr b →
  ∃ st' out, step now (Disconnect sid) st = Ok st' out ∧
    socketIdToUserId st' !! b = socketIdToUserId st !! b ∧
    resolve st' b = resolve st b ∧
    onlineUsers st' !! resolve st b = onlineUsers st !! resolve st b ∧
    onlineUsers st' !! JStr b = onlineUsers st !! JStr b ∧
    userRooms st' !! resolve st b = userRooms st !! resolve st b ∧
    adapter st' !! b = adapter st !! b.
Proof.
  intros Hsid Hb Hres Hres1 Hres2.
  destruct (on_disconnect_spec st sid (resolve_truthy st sid Hsid))
    as (st' & Hstep & Ho & Hs & Hr & _ & _ & _ & _ & Had).
  eexists st', _. rewrite step_disconnect_now. split; [exact Hstep|].
  assert (socketIdToUserId st' !! b = socketIdToUserId st !! b) as Hbind
    by (by rewrite Hs, lookup_delete_ne).
  split; [done|]. split; [unfold resolve; by rewrite Hbind|].
  split; [by rewrite Ho, !lookup_delete_ne|].
  split; [rewrite Ho, !lookup_delete_ne; [done|done|by intros [= ?]]|].
  split; [by rewrite Hr, lookup_delete_ne|]. by apply Had.
Qed.

Lemma disconnect_leaves_other_identities_alone_witness :
  (socketIdToUserId two_users !! "s2" = Some (JStr "u2") ∧
   resolve two_users "s2" = JStr "u2" ∧
   onlineUsers two_users !! JStr "u2" = Some "s2" ∧
   onlineUsers two_users !! JStr "s2" = Some "s2" ∧
   userRooms two_users !! JStr "u2" = Some {[JStr "r2"]} ∧
   adapter two_users !! "s2" = Some {[JStr "s2"; JStr "r2"]}) ∧
  ∃ st' out, step 9 (Disconnect "s1") two_users = Ok st' out ∧
    socketIdToUserId st' !! "s2" = socketIdToUserId two_users !! "s2" ∧
    resolve st' "s2" = resolve two_users "s2" ∧
    onlineUsers st' !! resolve two_users "s2"
      = onlineUsers two_users !! resolve two_users "s2" ∧
    onlineUsers st' !! JStr "s2" = onlineUsers two_users !! JStr "s2" ∧
    userRooms st' !! resolve two_users "s2"
      = userRooms two_users !! resolve two_users "s2" ∧
    adapter st' !! "s2" = adapter two_users !! "s2".
Proof.
  split; [repeat split; vm_compute; reflexivity|].
  apply (disconnect_leaves_other_identities_alone 9 "s1" "s2" two_users);
    try discriminate; vm_compute; discriminate.
Defined.

(** X17. Joining subscribes and leaving unsubscribes.  After ["joinChat"]
    a connected socket is among those a broadcast to the room reaches, be it
    the socket handler's or the controller's; after ["leaveChat"] it no
    longer is. *)
Theorem join_subscribes_leave_unsubscribes now1 now2 sid c e st :
  is_Some (adapter st !! sid) →
  ∃ st1 st2,
    step now1 (JoinChat sid c) st = Ok st1 [] ∧
    sid ∈ recipients (adapter st1) (IoTo c e) ∧
    step now2 (LeaveChat sid c) st1 = Ok st2 [] ∧
    sid ∉ recipients (adapter st2) (IoTo c e).
Proof.
  intros [rs Hrs]. eexists _, _. split; [apply on_joinChat_spec|].
  split; [|split; [done|]]; simpl; rewrite elem_of_room_members.
  - exists (rs ∪ {[c]}). rewrite lookup_alter_eq, Hrs. split; [done|]. set_solver.
  - intros (rs' & Hrs' & Hin). rewrite !lookup_alter_eq, Hrs in Hrs'. simpl in Hrs'.
    injection Hrs' as <-. set_solver.
Qed.

Lemma join_subscribes_leave_unsubscribes_witness :
  ∃ st1 st2,
    step 1 (JoinChat "s2" (JStr "r5")) two_connections_one_user = Ok st1 [] ∧
    "s2" ∈ recipients (adapter st1) (IoTo (JStr "r5") (MessagesRead (JStr "r5") (JStr "u1"))) ∧
    step 2 (LeaveChat "s2" (JStr "r5")) st1 = Ok st2 [] ∧
    "s2" ∉ recipients (adapter st2) (IoTo (JStr "r5") (MessagesRead (JStr "r5") (JStr "u1"))).
Proof.
  apply (join_subscribes_leave_unsubscribes 1 2 "s2" (JStr "r5") _ two_connections_one_user).
  vm_compute. eexists. reflexivity.
Defined.



End Connections.

(** ** [createGroup] *)

Section Groups.

(** X19. [createGroup] cannot make a group chat.  Whatever the stores
    answer, it never reaches [Chat.create] nor the [joinedChat]
    notifications: the participants are computed with [filter] called on a
    [Set], which has no such method.  It returns a chat exactly when one
    exists already for the project; for a valid project without a chat it
    ends in an exception, and [mentorDecision], which catches it, answers
    that the group chat creation failed. *)
Theorem createGroup_never_creates {C : Type} projectId valid
    (project : answer project_doc) (existing : answer C) created io_ready populated :
  let r := createGroup projectId valid project existing created io_ready populated in
  r.2 = [] ∧
  (∀ chat, r.1 = GroupReturns chat ↔
     valid = true ∧ (∃ p, project = Doc p) ∧ ∃ c, existing = Doc c ∧ chat = Some c) ∧
  (valid = true → (∃ p, project = Doc p) → existing = NoDoc →
     r.1 = GroupThrows ∧
     mentorDecision_accept_message r.1
       = "Mentor assigned successfully, but group chat creation failed").
Proof.
  unfold createGroup. destruct valid; simpl.
  2: { split; [done|]. split; [|done]. intros chat. split; [done|]. by intros [? _]. }
  destruct project as [p| |].
  2: { split; [done|]. split; [|by intros _ [? ?]]. intros chat. split; [done|].
       by intros (_ & [? ?] & _). }
  2: { split; [done|]. split; [|by intros _ [? ?]]. intros chat. split; [done|].
       by intros (_ & [? ?] & _). }
  destruct existing as [ch| |]; unfold new_Set, call_filter_Boolean;
    (split; [done|]); (split; [|done]); intros chat;
    (split; [|by intros (_ & _ & ? & [= <-] & ->)]); try done.
  intros [= <-]. split; [done|]. split; [by eexists|by eexists].
Qed.

End Groups.
